(** * blankshield: reverse-tabnabbing mitigation, embedded in Rocq

    Two source files are embedded:
    - [src/blankshield.js]    (module [Blankshield]): [clickListener],
      [blankshield], [addEventListener], [iframeOpen] and the export
      section ([load]);
    - [src/unnamed/part_000]  (module [Direct]): [handler], [blankshield],
      [addEvent] and the export section ([load]).

    The library code is translated function by function.  The browser is
    modelled as explicit state: a document tree with hidden frames, the
    steps made on that tree in the order they were made, a log of the host
    calls made by the library, and a heap of objects on which listeners are
    registered.  The text that [iframeOpen] injects is JavaScript source:
    module [Script] has a lexer, a parser and an interpreter for the
    fragment of the language that text is written in; a call that runs a
    text outside the fragment has the outcome [Undetermined].  Strings are
    sequences of 8-bit characters. *)

From Stdlib Require Import String Ascii List ZArith Lia Bool.
From stdpp Require Import base gmap strings list.
Import ListNotations.
Open Scope string_scope.

(** ** Completion records *)

Inductive JsError := TypeError | ReferenceError | SyntaxError | NotFoundError.

(** How a call ends: normally with a value, or by throwing.  [Undetermined]
    is not an outcome of JavaScript: it marks a call that ran a script to
    which [Script] gives no meaning.  Whether such a call returns, how it
    ends and what page it leaves are not determined here; the state paired
    with it is the one in which that script was started. *)
Inductive Completion (A : Type) :=
| Normal (v : A)
| Throw (e : JsError)
| Undetermined.
Arguments Normal {A} v.
Arguments Throw {A} e.
Arguments Undetermined {A}.

(** Values a listener returns: [undefined] (falling off the end, or a bare
    [return]) or [false]. *)
Inductive RetVal := RUndefined | RFalse.

(** JavaScript's ToBoolean on these values: both are falsy. *)
Definition to_boolean (v : RetVal) : bool :=
  match v with RUndefined => false | RFalse => false end.

(** ** The fragment of JavaScript used by the injected script

    Tokens: identifiers, [var], [null], the punctuation of the library's
    script, and double-quoted string literals with their escape sequences.
    A literal that is not closed before the end of the text or of the line
    is a syntax error; a character or an escape the fragment does not cover
    makes the text unsupported, and nothing is claimed about it.

    Besides the statements of the library's own script the fragment has two
    that a url can bring in, since the url is pasted into the text as it is:
    a parenthesised string literal, and the statement by which the script
    moves its own frame to another place of the page's tree. *)

Module Script.

Inductive token :=
| TIdent (x : string)
| TVar
| TNull
| TDot
| TAssign
| TSemi
| TLParen
| TRParen
| TString (s : string).

Inductive lexed :=
| Lexed (ts : list token)
| LexSyntaxError
| LexUnsupported.

(** The lexer is a state machine that consumes one character at a time. *)
Inductive lex_state :=
| Start
| InIdent (acc : string)
| InString (acc : string)
| InEscape (acc : string).

Definition LF : ascii := ascii_of_nat 10.
Definition CR : ascii := ascii_of_nat 13.
Definition TAB : ascii := ascii_of_nat 9.
Definition dquote : ascii := ascii_of_nat 34.
Definition backslash : ascii := ascii_of_nat 92.

Definition is_line_terminator (c : ascii) : bool :=
  Ascii.eqb c LF || Ascii.eqb c CR.

Definition is_space (c : ascii) : bool :=
  Ascii.eqb c " " || Ascii.eqb c TAB || is_line_terminator c.

Definition is_ident_start (c : ascii) : bool :=
  let n := nat_of_ascii c in
  Nat.leb 65 n && Nat.leb n 90 || Nat.leb 97 n && Nat.leb n 122
  || Ascii.eqb c "_" || Ascii.eqb c "$".

Definition is_digit (c : ascii) : bool :=
  let n := nat_of_ascii c in Nat.leb 48 n && Nat.leb n 57.

Definition is_ident_char (c : ascii) : bool := is_ident_start c || is_digit c.

Definition punct (c : ascii) : option token :=
  if Ascii.eqb c "." then Some TDot
  else if Ascii.eqb c "=" then Some TAssign
  else if Ascii.eqb c ";" then Some TSemi
  else if Ascii.eqb c "(" then Some TLParen
  else if Ascii.eqb c ")" then Some TRParen
  else None.

Definition keyword (x : string) : token :=
  if String.eqb x "var" then TVar
  else if String.eqb x "null" then TNull
  else TIdent x.

(** The character an escape sequence [\c] denotes inside a string literal.
    Hexadecimal, unicode and octal escapes and line continuations are outside
    the fragment ([None]). *)
Definition unescape (c : ascii) : option ascii :=
  if Ascii.eqb c "n" then Some LF
  else if Ascii.eqb c "r" then Some CR
  else if Ascii.eqb c "t" then Some TAB
  else if Ascii.eqb c "b" then Some (ascii_of_nat 8)
  else if Ascii.eqb c "f" then Some (ascii_of_nat 12)
  else if Ascii.eqb c "v" then Some (ascii_of_nat 11)
  else if Ascii.eqb c "x" || Ascii.eqb c "u" || is_digit c
          || is_line_terminator c then None
  else Some c.

Definition snoc (acc : string) (c : ascii) : string :=
  acc +:+ String c EmptyString.

Definition emit (t : token) (r : lexed) : lexed :=
  match r with
  | Lexed ts => Lexed (t :: ts)
  | LexSyntaxError => LexSyntaxError
  | LexUnsupported => LexUnsupported
  end.

Fixpoint lex_from (st : lex_state) (s : string) : lexed :=
  match s with
  | EmptyString =>
      match st with
      | Start => Lexed []
      | InIdent acc => Lexed [keyword acc]
      | InString _ | InEscape _ => LexSyntaxError
      end
  | String c rest =>
      let from_start (_ : unit) :=
        if is_space c then lex_from Start rest
        else if is_ident_start c then lex_from (InIdent (String c EmptyString)) rest
        else if Ascii.eqb c dquote then lex_from (InString EmptyString) rest
        else match punct c with
             | Some t => emit t (lex_from Start rest)
             | None => LexUnsupported
             end in
      match st with
      | Start => from_start tt
      | InIdent acc =>
          if is_ident_char c then lex_from (InIdent (snoc acc c)) rest
          else emit (keyword acc) (from_start tt)
      | InString acc =>
          if Ascii.eqb c dquote then emit (TString acc) (lex_from Start rest)
          else if Ascii.eqb c backslash then lex_from (InEscape acc) rest
          else if is_line_terminator c then LexSyntaxError
          else lex_from (InString (snoc acc c)) rest
      | InEscape acc =>
          match unescape c with
          | Some d => lex_from (InString (snoc acc d)) rest
          | None => LexUnsupported
          end
      end
  end.

Definition lex (s : string) : lexed := lex_from Start s.

(** Statements of the fragment: those the library's script is made of, with
    any string literal as the argument of [window.open], and the two others
    named above. *)
Inductive stmt :=
| NullOwn (field : string)          (* window.parent = null, window.top = null,
                                       window.frameElement = null *)
| VarChildOpen (url : string)       (* var child = window.open("url") *)
| NullChildOpener                   (* child.opener = null *)
| MoveFrameToRoot                   (* frameElement.ownerDocument.documentElement
                                         .appendChild(frameElement) *)
| ExprLiteral (s : string).         (* ("s") *)

Inductive parsed :=
| Program (p : list stmt)
| ParseSyntaxError
| ParseUnsupported.

Fixpoint split_stmts (cur : list token) (ts : list token) : list (list token) :=
  match ts with
  | [] => [cur]
  | TSemi :: r => cur :: split_stmts [] r
  | t :: r => split_stmts (cur ++ [t]) r
  end.

Definition ident_of (t : token) : option string :=
  match t with TIdent x => Some x | _ => None end.

Definition literal_of (t : token) : option string :=
  match t with TString s => Some s | _ => None end.

Definition token_eqb (a b : token) : bool :=
  match a, b with
  | TIdent x, TIdent y => String.eqb x y
  | TString x, TString y => String.eqb x y
  | TVar, TVar | TNull, TNull | TDot, TDot | TAssign, TAssign
  | TSemi, TSemi | TLParen, TLParen | TRParen, TRParen => true
  | _, _ => false
  end.

Definition is_own_reference (f : string) : bool :=
  String.eqb f "parent" || String.eqb f "top" || String.eqb f "frameElement".

Fixpoint tokens_eqb (a b : list token) : bool :=
  match a, b with
  | [], [] => true
  | x :: a, y :: b => token_eqb x y && tokens_eqb a b
  | _, _ => false
  end.

(** [frameElement.ownerDocument.documentElement.appendChild(frameElement)] *)
Definition move_frame_tokens : list token :=
  [TIdent "frameElement"; TDot; TIdent "ownerDocument"; TDot;
   TIdent "documentElement"; TDot; TIdent "appendChild"; TLParen;
   TIdent "frameElement"; TRParen].

Definition parse_stmt (ts : list token) : option stmt :=
  match ts with
  | [lp; s; rp] =>
      match literal_of s with
      | Some s =>
          if token_eqb lp TLParen && token_eqb rp TRParen
          then Some (ExprLiteral s) else None
      | None => None
      end
  | [_; _; _; _; _; _; _; _; _; _] =>
      if tokens_eqb ts move_frame_tokens then Some MoveFrameToRoot else None
  | [o; dot; f; eq; nul] =>
      match ident_of o, ident_of f with
      | Some o, Some f =>
          if token_eqb dot TDot && token_eqb eq TAssign && token_eqb nul TNull
          then
            if String.eqb o "window" && is_own_reference f then Some (NullOwn f)
            else if String.eqb o "child" && String.eqb f "opener"
                 then Some NullChildOpener
                 else None
          else None
      | _, _ => None
      end
  | [var; x; eq; w; dot; m; lp; u; rp] =>
      match literal_of u with
      | Some u =>
          if token_eqb var TVar && token_eqb x (TIdent "child")
             && token_eqb eq TAssign
             && token_eqb w (TIdent "window") && token_eqb dot TDot
             && token_eqb m (TIdent "open") && token_eqb lp TLParen
             && token_eqb rp TRParen
          then Some (VarChildOpen u) else None
      | None => None
      end
  | _ => None
  end.

Fixpoint parse_stmts (ss : list (list token)) : option (list stmt) :=
  match ss with
  | [] => Some []
  | [] :: r => parse_stmts r
  | s :: r =>
      match parse_stmt s, parse_stmts r with
      | Some st, Some p => Some (st :: p)
      | _, _ => None
      end
  end.

Definition parse (text : string) : parsed :=
  match lex text with
  | Lexed ts =>
      match parse_stmts (split_stmts [] ts) with
      | Some p => Program p
      | None => ParseUnsupported
      end
  | LexSyntaxError => ParseSyntaxError
  | LexUnsupported => ParseUnsupported
  end.

(** What a statement does when it runs inside a frame's window.  For
    the three own references the assignment is what is recorded.
    [window.top] and [window.frameElement] are read-only attributes of a
    window (HTML Standard, the Window interface), and a script that is not
    in strict mode, as the injected one, assigns to them without effect and
    without error: after [window.frameElement = null] the name
    [frameElement] still gives the element of the script's frame. *)
Inductive action :=
| ClearOwn (field : string)         (* window.field = null *)
| Open (url : string)               (* window.open(url) *)
| ClearOpener                       (* child.opener = null, child a window handle *)
| MoveFrame.                        (* the frame's element appended to the
                                       page's document element *)

Inductive value := VUndefined | VNull | VWindow.

Definition declares_child (s : stmt) : bool :=
  match s with VarChildOpen _ => true | _ => false end.

(** [var child] is hoisted: [child] exists, undefined, from the start of a
    program that declares it, and does not exist in one that does not. *)
Definition hoist (p : list stmt) : option value :=
  if existsb declares_child p then Some VUndefined else None.

(** [popups] tells whether [window.open] returns a handle ([true]) or
    [null] ([false], popup blocked); [child] is the variable's value. *)
Fixpoint exec (popups : bool) (child : option value) (p : list stmt)
  : list action * Completion unit :=
  match p with
  | [] => ([], Normal tt)
  | NullOwn f :: r =>
      let '(acts, c) := exec popups child r in (ClearOwn f :: acts, c)
  | VarChildOpen u :: r =>
      let v := if popups then VWindow else VNull in
      let '(acts, c) := exec popups (Some v) r in (Open u :: acts, c)
  | NullChildOpener :: r =>
      match child with
      | None => ([], Throw ReferenceError)
      | Some VWindow =>
          let '(acts, c) := exec popups child r in (ClearOpener :: acts, c)
      | Some _ => ([], Throw TypeError)
      end
  | MoveFrameToRoot :: r =>
      let '(acts, c) := exec popups child r in (MoveFrame :: acts, c)
  | ExprLiteral _ :: r => exec popups child r
  end.

(** Running a script text: [None] when the text is outside the fragment. *)
Definition run (popups : bool) (text : string)
  : option (list action * Completion unit) :=
  match parse text with
  | Program p => Some (exec popups (hoist p) p)
  | ParseSyntaxError => Some ([], Throw SyntaxError)
  | ParseUnsupported => None
  end.

End Script.


(** ** The host: elements, events, document tree, call log *)

(** An element as the click handlers see it: its attributes. *)
Record Element := { attributes : gmap string string }.

(** [element.getAttribute(name)]: the value, or [null] ([None]). *)
Definition getAttribute (el : Element) (name : string) : option string :=
  attributes el !! name.

(** A click event.  Legacy events expose [srcElement] instead of [target]
    and have no [preventDefault] method.  [ev_currentTarget] is the element
    the dispatching listener was registered on. *)
Record Event := {
  ev_target : option Element;
  ev_srcElement : option Element;
  ev_currentTarget : option Element;
  ctrlKey : bool;
  shiftKey : bool;
  metaKey : bool;
  has_preventDefault : bool
}.

(** A hidden frame created by [iframeOpen]. *)
Record IFrame := {
  style_display : option string;
  frame_scripts : list string       (* scripts appended to its document *)
}.

(** The page's document: the children of [document.body] in order, the
    nodes appended to [document.documentElement] after [body], and the
    frames created so far (attached or not). *)
Record Document := {
  body : list nat;
  root_children : list nat;
  frames : gmap nat IFrame
}.

(** Steps on the document, made by the library or by a script it injects.
    The world keeps them in the order they are made. *)
Inductive DomStep :=
| FrameCreated (n : nat)                     (* document.createElement('iframe') *)
| DisplaySet (n : nat) (v : string)          (* iframe.style.display = v *)
| AppendedToBody (n : nat)                   (* document.body.appendChild(node) *)
| ScriptAppended (n : nat) (text : string)   (* a script element appended to the
                                                body of the frame's document *)
| RemovedFromBody (n : nat)                  (* document.body.removeChild(node) *)
| MovedToRoot (n : nat).                     (* document.documentElement
                                                  .appendChild(node) *)

(** Calls the library (or a script it injects) makes into the host. *)
Inductive HostCall :=
| ScriptInjected (frame : nat) (text : string)
| FrameRan (frame : nat) (a : Script.action)
| FrameThrew (frame : nat) (e : JsError)
| WindowOpen (url : string)          (* window.open(url) from the page *)
| OpenerCleared                      (* child.opener = null from the page *)
| PreventDefault                     (* e.preventDefault() *)
| ReturnValueFalse                   (* e.returnValue = false *)
| PageHandlerRan (id : nat).         (* a handler of the page itself ran *)

Record World := {
  window_event : option Event;       (* the implicit global event *)
  popups_allowed : bool;             (* window.open returns a handle *)
  document : Document;
  dom_steps : list DomStep;          (* the steps made on the document *)
  calls : list HostCall
}.

Definition M (A : Type) : Type := World -> Completion A * World.

Definition record (c : HostCall) (w : World) : World :=
  {| window_event := window_event w;
     popups_allowed := popups_allowed w;
     document := document w;
     dom_steps := dom_steps w;
     calls := calls w ++ [c] |}.

Definition record_all (cs : list HostCall) (w : World) : World :=
  {| window_event := window_event w;
     popups_allowed := popups_allowed w;
     document := document w;
     dom_steps := dom_steps w;
     calls := calls w ++ cs |}.

(** What a step makes of the document.  Appending a node that is in the
    tree moves it: it leaves the place it had. *)
Definition apply_step (s : DomStep) (d : Document) : Document :=
  match s with
  | FrameCreated n =>
      {| body := body d; root_children := root_children d;
         frames := <[n := {| style_display := None; frame_scripts := [] |}]> (frames d) |}
  | DisplaySet n v =>
      {| body := body d; root_children := root_children d;
         frames := alter (fun f => {| style_display := Some v;
                                      frame_scripts := frame_scripts f |})
                         n (frames d) |}
  | AppendedToBody n =>
      {| body := filter (fun m => m ≠ n) (body d) ++ [n];
         root_children := filter (fun m => m ≠ n) (root_children d);
         frames := frames d |}
  | ScriptAppended n text =>
      {| body := body d; root_children := root_children d;
         frames := alter (fun f => {| style_display := style_display f;
                                      frame_scripts := frame_scripts f ++ [text] |})
                         n (frames d) |}
  | RemovedFromBody n =>
      {| body := filter (fun m => m ≠ n) (body d);
         root_children := root_children d;
         frames := frames d |}
  | MovedToRoot n =>
      {| body := filter (fun m => m ≠ n) (body d);
         root_children := filter (fun m => m ≠ n) (root_children d) ++ [n];
         frames := frames d |}
  end.

(** Making a step: the document changes and the step is kept. *)
Definition step (s : DomStep) (w : World) : World :=
  {| window_event := window_event w;
     popups_allowed := popups_allowed w;
     document := apply_step s (document w);
     dom_steps := dom_steps w ++ [s];
     calls := calls w |}.

Definition step_all (ss : list DomStep) (w : World) : World :=
  foldl (fun w s => step s w) w ss.

(** JavaScript's [a || b] on values that are an object or undefined. *)
Definition or_else {A : Type} (a b : option A) : option A :=
  match a with Some x => Some x | None => b end.

(** [document.createElement('iframe')]: a node distinct from every node of
    the tree and from every frame created before. *)
Definition new_node (d : Document) : nat :=
  fresh (list_to_set (body d) ∪ list_to_set (root_children d)
         ∪ dom (frames d) : gset nat).

Definition createElement_iframe (w : World) : nat * World :=
  let n := new_node (document w) in
  (n, step (FrameCreated n) w).

(** [iframe.style.display = v] *)
Definition set_display (n : nat) (v : string) (w : World) : World :=
  step (DisplaySet n v) w.

(** [document.body.appendChild(node)]: the node becomes the last child; a
    node already in the tree is moved. *)
Definition appendChild (n : nat) (w : World) : World :=
  step (AppendedToBody n) w.

(** [document.body.removeChild(node)]: a node that is not a child of
    [body] makes it throw. *)
Definition removeChild (n : nat) : M unit := fun w =>
  if decide (n ∈ body (document w)) then (Normal tt, step (RemovedFromBody n) w)
  else (Throw NotFoundError, w).

(** A node is in the tree when it is a child of [body] or of the document
    element. *)
Definition in_tree (n : nat) (d : Document) : Prop :=
  n ∈ body d ∨ n ∈ root_children d.

(** [iframe.contentDocument] and [iframe.contentWindow.document]: a frame
    has a nested document while it is in the tree.  The nested document is
    identified by its frame. *)
Definition contentDocument (n : nat) (w : World) : option nat :=
  if decide (in_tree n (document w)) then Some n else None.

Definition contentWindow_document (n : nat) (w : World) : option nat :=
  if decide (in_tree n (document w)) then Some n else None.

(** The steps on the page's document that the actions of a script running
    in frame [n] make. *)
Definition frame_steps (n : nat) (acts : list Script.action) : list DomStep :=
  flat_map (fun a => match a with
                     | Script.MoveFrame => [MovedToRoot n]
                     | _ => []
                     end) acts.

(** What running [text] inside frame [n] does.  Errors raised by the script
    are reported inside the frame and do not reach the code that inserted
    it.  The script shares the page's origin and reaches the page through
    its frame's element.  For a text outside the fragment of [Script] the
    result is [None]: what such a script does is not determined here. *)
Definition run_in_frame (n : nat) (text : string) (w : World) : option World :=
  match Script.run (popups_allowed w) text with
  | Some (acts, Normal _) =>
      Some (record_all (map (FrameRan n) acts) (step_all (frame_steps n acts) w))
  | Some (acts, Throw e) =>
      Some (record_all (map (FrameRan n) acts ++ [FrameThrew n e])
                       (step_all (frame_steps n acts) w))
  | Some (_, Undetermined) | None => None
  end.

(** [script = iframeDoc.createElement('script'); script.text = text;
    iframeDoc.body.appendChild(script)]: the script is stored in the nested
    document and runs at once. *)
Definition appendScript (n : nat) (text : string) (w : World) : option World :=
  run_in_frame n text (record (ScriptInjected n text) (step (ScriptAppended n text) w)).

(** ** Listeners as values

    The functions that end up registered on elements: the two click handlers
    of the library, the closure built by [addEventListener] around a previous
    handler, and handlers the page installed itself. *)
Inductive Listener :=
| ClickListener                                       (* Blankshield.clickListener *)
| Handler                                             (* Direct.handler *)
| Wrapper (listener prevListener : Listener)          (* function() { listener(); prevListener(); } *)
| PageHandler (id : nat).

(** The value of [target.length].  Numbers are integers here, as the
    lengths of collections are. *)
Inductive LengthProp :=
| LengthUndefined
| LengthNumber (n : Z)
| LengthOther (to_number : option Z).   (* not a number; [None]: converts to NaN *)

(** An object handed to the library for registration. *)
Record Obj := {
  length_prop : LengthProp;
  items : list nat;                                    (* target[0], target[1], ... *)
  has_addEventListener : bool;
  has_attachEvent : bool;
  listeners : list (string * Listener * bool);         (* addEventListener calls received *)
  attached : list (string * Listener);                 (* attachEvent calls received *)
  props : gmap string Listener                         (* on-properties holding a function *)
}.

(** The argument of [blankshield]: a primitive string, a String object (one
    for which [target instanceof String] holds), or any other object, given
    by its reference into the heap. *)
Inductive Target :=
| PrimString (s : string)
| StringObject (s : string)
| Object (r : nat).

Definition typeof_is_string (t : Target) : bool :=
  match t with PrimString _ => true | _ => false end.

Definition instanceof_String (t : Target) : bool :=
  match t with StringObject _ => true | _ => false end.

(** [target.length]; [None] when [target] is not an object of the heap
    (reading a property of [undefined]). *)
Definition get_length (t : Target) (h : gmap nat Obj) : option LengthProp :=
  match t with
  | PrimString s | StringObject s => Some (LengthNumber (Z.of_nat (String.length s)))
  | Object r => length_prop <$> h !! r
  end.

(** [target[i]] as an object reference; [None] is [undefined]. *)
Definition get_item (t : Target) (i : nat) (h : gmap nat Obj) : option nat :=
  match t with
  | Object r => match h !! r with Some o => items o !! i | None => None end
  | _ => None
  end.

(** Number of iterations of [for (i = 0; i < target.length; i++)]. *)
Definition loop_bound (l : LengthProp) : nat :=
  match l with
  | LengthUndefined => 0
  | LengthNumber n => Z.to_nat n
  | LengthOther (Some n) => Z.to_nat n
  | LengthOther None => 0
  end.

Definition set_listeners (v : list (string * Listener * bool)) (o : Obj) : Obj :=
  {| length_prop := length_prop o; items := items o;
     has_addEventListener := has_addEventListener o;
     has_attachEvent := has_attachEvent o;
     listeners := v; attached := attached o; props := props o |}.

Definition set_attached (v : list (string * Listener)) (o : Obj) : Obj :=
  {| length_prop := length_prop o; items := items o;
     has_addEventListener := has_addEventListener o;
     has_attachEvent := has_attachEvent o;
     listeners := listeners o; attached := v; props := props o |}.

Definition set_prop (name : string) (l : Listener) (o : Obj) : Obj :=
  {| length_prop := length_prop o; items := items o;
     has_addEventListener := has_addEventListener o;
     has_attachEvent := has_attachEvent o;
     listeners := listeners o; attached := attached o;
     props := <[name := l]> (props o) |}.

(** ** Loading a file: what its last lines find around them

    Each file ends by handing [blankshield] to whatever module system is
    present and to [root], the [this] of the enclosing script.  The writes
    it makes are logged; the value written is always [blankshield] (for
    [define], the factory that returns it). *)

(** A value that is undefined (or an undeclared name under [typeof]),
    [null], or an object. *)
Inductive Ref := NoValue | NullValue | ObjectRef (id : nat).

Inductive ModuleBinding :=
| ModuleUndefined
| ModuleNull
| ModuleObject (exports_truthy : bool).          (* module.exports is truthy *)

(** The value of [define.amd]. *)
Inductive AmdValue := AmdUndefined | AmdNull | AmdObject | AmdPrimitive.

Inductive DefineBinding :=
| NotAFunction                                   (* typeof define is not 'function' *)
| DefineFunction (amd : AmdValue).

Record LoadEnv := {
  env_exports : Ref;
  env_module : ModuleBinding;
  env_define : DefineBinding;
  env_root : Ref
}.

Inductive ExportWrite :=
| ModuleExportsAssigned                          (* module.exports = blankshield *)
| PropertyAssigned (obj : nat) (name : string)   (* obj.name = blankshield *)
| DefineCalled (name : string) (deps : list string).

(** [typeof v == 'object'] for the value of [define.amd]. *)
Definition amd_typeof_object (v : AmdValue) : bool :=
  match v with AmdNull | AmdObject => true | _ => false end.

(** Truthiness of a value whose [typeof] is ['object']. *)
Definition amd_truthy (v : AmdValue) : bool :=
  match v with AmdObject => true | _ => false end.

(** [obj.blankshield = blankshield] *)
Definition assign_blankshield (obj : Ref) : Completion unit * list ExportWrite :=
  match obj with
  | ObjectRef id => (Normal tt, [PropertyAssigned id "blankshield"])
  | NoValue | NullValue => (Throw TypeError, [])
  end.

(** The CommonJS block (blankshield.js lines 123-129, part_000 lines
    46-52). *)
Definition export_commonjs (env : LoadEnv) : Completion unit * list ExportWrite :=
  match env_exports env with
  | NoValue => (Normal tt, [])
  | exports =>
      match env_module env with
      | ModuleNull => (Throw TypeError, [])          (* module.exports of null *)
      | ModuleObject true => (Normal tt, [ModuleExportsAssigned])
      | ModuleObject false | ModuleUndefined => assign_blankshield exports
      end
  end.

(** Sequencing of two blocks: the second runs when the first completes. *)
Definition and_then (a b : Completion unit * list ExportWrite)
  : Completion unit * list ExportWrite :=
  match a with
  | (Normal _, ws) => let '(c, ws') := b in (c, (ws ++ ws')%list)
  | (Throw x, ws) => (Throw x, ws)
  | (Undetermined, ws) => (Undetermined, ws)
  end.

Definition quote : string := String Script.dquote EmptyString.

(** ** src/blankshield.js *)

Module Blankshield.

(** The text assigned to [script.text] (lines 110-112). *)
Definition script_text (url : string) : string :=
  ((("window.parent = null; window.top = null;" +:+
     ("window.frameElement = null; var child = window.open(" +:+ quote)) +:+ url)
     +:+ (quote +:+ ");")) +:+
  "child.opener = null".

(** [iframeOpen(url)], lines 100-116. *)
Definition iframeOpen (url : string) : M unit := fun w =>
  let '(iframe, w) := createElement_iframe w in
  let w := set_display iframe "none" w in
  let w := appendChild iframe w in
  match or_else (contentDocument iframe w) (contentWindow_document iframe w) with
  | None => (Throw TypeError, w)
  | Some iframeDoc =>
      match appendScript iframeDoc (script_text url) w with
      | Some w => removeChild iframe w
      | None => (Undetermined, w)
      end
  end.

(** [clickListener(e)], lines 13-40.  [arg] is the argument the listener is
    called with ([None]: called without one). *)
Definition clickListener (arg : option Event) : M RetVal := fun w =>
  match or_else arg (window_event w) with
  | None => (Throw TypeError, w)
  | Some e =>
      match or_else (ev_target e) (ev_srcElement e) with
      | None => (Throw TypeError, w)
      | Some target =>
          match getAttribute target "href" with
          | None => (Normal RUndefined, w)
          | Some href =>
              if String.eqb href "" then (Normal RUndefined, w)
              else
                let usedModifier := ctrlKey e || shiftKey e || metaKey e in
                if negb usedModifier
                   && negb (bool_decide (getAttribute target "target" = Some "_blank"))
                then (Normal RUndefined, w)
                else
                  match iframeOpen href w with
                  | (Throw x, w) => (Throw x, w)
                  | (Undetermined, w) => (Undetermined, w)
                  | (Normal _, w) =>
                      let w := if has_preventDefault e
                               then record PreventDefault w
                               else record ReturnValueFalse w in
                      (Normal RFalse, w)
                  end
          end
      end
  end.

(** [addEventListener(target, type, listener)], lines 71-92.  [target] is a
    reference into the heap; a reference to nothing is [undefined]. *)
Definition addEventListener (target : nat) (type : string) (listener : Listener)
    (h : gmap nat Obj) : Completion unit * gmap nat Obj :=
  match h !! target with
  | None => (Throw TypeError, h)
  | Some o =>
      if has_addEventListener o then
        (Normal tt, <[target := set_listeners (listeners o ++ [(type, listener, false)]) o]> h)
      else
        let onType := "on" +:+ type in
        if has_attachEvent o then
          (Normal tt, <[target := set_attached (attached o ++ [(onType, listener)]) o]> h)
        else
          match props o !! onType with
          | Some prevListener =>
              (Normal tt, <[target := set_prop onType (Wrapper listener prevListener) o]> h)
          | None =>
              (Normal tt, <[target := set_prop onType listener o]> h)
          end
  end.

(** The loop of lines 57-59, [n] iterations left, at index [i].  A
    registration changes neither [target.length] nor [target[i]], so the
    bound is read once. *)
Fixpoint attach_each (target : Target) (n i : nat) (h : gmap nat Obj)
  : Completion unit * gmap nat Obj :=
  match n with
  | O => (Normal tt, h)
  | S n' =>
      match get_item target i h with
      | None => (Throw TypeError, h)
      | Some el =>
          match addEventListener el "click" ClickListener h with
          | (Normal _, h') => attach_each target n' (S i) h'
          | (Throw x, h') => (Throw x, h')
          | (Undetermined, h') => (Undetermined, h')
          end
      end
  end.

(** [blankshield(target)], lines 53-61. *)
Definition blankshield (target : Target) (h : gmap nat Obj)
  : Completion unit * gmap nat Obj :=
  match get_length target h with
  | None => (Throw TypeError, h)
  | Some LengthUndefined =>
      match target with
      | Object r => addEventListener r "click" ClickListener h
      | _ => (Throw TypeError, h)     (* not reached: a string has a length *)
      end
  | Some len =>
      if negb (typeof_is_string target) && negb (instanceof_String target)
      then attach_each target (loop_bound len) 0 h
      else (Normal tt, h)
  end.

(** The AMD block, lines 132-136. *)
Definition export_amd (env : LoadEnv) : Completion unit * list ExportWrite :=
  match env_define env with
  | DefineFunction amd =>
      if amd_typeof_object amd
      then (Normal tt, [DefineCalled "blankshield" []])
      else (Normal tt, [])
  | NotAFunction => (Normal tt, [])
  end.

(** The export section, lines 118-139. *)
Definition load (env : LoadEnv) : Completion unit * list ExportWrite :=
  and_then (export_commonjs env)
    (and_then (export_amd env) (assign_blankshield (env_root env))).

End Blankshield.

(** ** src/unnamed/part_000 *)

Module Direct.

(** [handler(e)], lines 4-19. *)
Definition handler (arg : option Event) : M RetVal := fun w =>
  match arg with
  | None => (Throw TypeError, w)
  | Some e =>
      match ev_target e with
      | None => (Throw TypeError, w)
      | Some target =>
          match getAttribute target "href" with
          | None => (Normal RUndefined, w)
          | Some href =>
              if String.eqb href "" then (Normal RUndefined, w)
              else
                let usedModifier := ctrlKey e || shiftKey e || metaKey e in
                if negb usedModifier
                   && negb (bool_decide (getAttribute target "target" = Some "_blank"))
                then (Normal RUndefined, w)
                else
                  (* child = window.open(href) *)
                  let w := record (WindowOpen href) w in
                  (* child.opener = null *)
                  if popups_allowed w then
                    let w := record OpenerCleared w in
                    (* e.preventDefault() *)
                    if has_preventDefault e
                    then (Normal RUndefined, record PreventDefault w)
                    else (Throw TypeError, w)
                  else (Throw TypeError, w)
          end
      end
  end.

(** [addEvent(target, type, listener)], lines 31-39. *)
Definition addEvent (target : nat) (type : string) (listener : Listener)
    (h : gmap nat Obj) : Completion unit * gmap nat Obj :=
  match h !! target with
  | None => (Throw TypeError, h)
  | Some o =>
      if has_addEventListener o then
        (Normal tt, <[target := set_listeners (listeners o ++ [(type, listener, false)]) o]> h)
      else if has_attachEvent o then
        (Normal tt, <[target := set_attached (attached o ++ [("on" +:+ type, listener)]) o]> h)
      else
        (Normal tt, <[target := set_prop ("on" +:+ type) listener o]> h)
  end.

(** The loop of lines 25-27. *)
Fixpoint attach_each (target : Target) (n i : nat) (h : gmap nat Obj)
  : Completion unit * gmap nat Obj :=
  match n with
  | O => (Normal tt, h)
  | S n' =>
      match get_item target i h with
      | None => (Throw TypeError, h)
      | Some el =>
          match addEvent el "click" Handler h with
          | (Normal _, h') => attach_each target n' (S i) h'
          | (Throw x, h') => (Throw x, h')
          | (Undetermined, h') => (Undetermined, h')
          end
      end
  end.

(** [blankshield(target)], lines 21-29. *)
Definition blankshield (target : Target) (h : gmap nat Obj)
  : Completion unit * gmap nat Obj :=
  match get_length target h with
  | None => (Throw TypeError, h)
  | Some LengthUndefined =>
      match target with
      | Object r => addEvent r "click" Handler h
      | _ => (Throw TypeError, h)     (* not reached: a string has a length *)
      end
  | Some len =>
      if negb (typeof_is_string target) && negb (instanceof_String target)
      then attach_each target (loop_bound len) 0 h
      else (Normal tt, h)
  end.

(** The AMD block, lines 55-59. *)
Definition export_amd (env : LoadEnv) : Completion unit * list ExportWrite :=
  match env_define env with
  | DefineFunction amd =>
      if amd_typeof_object amd && amd_truthy amd
      then (Normal tt, [DefineCalled "blankshield" []])
      else (Normal tt, [])
  | NotAFunction => (Normal tt, [])
  end.

(** The export section, lines 41-62. *)
Definition load (env : LoadEnv) : Completion unit * list ExportWrite :=
  and_then (export_commonjs env)
    (and_then (export_amd env) (assign_blankshield (env_root env))).

End Direct.

(** ** Calling a listener *)

Fixpoint call (l : Listener) (arg : option Event) (w : World)
  : Completion RetVal * World :=
  match l with
  | ClickListener => Blankshield.clickListener arg w
  | Handler => Direct.handler arg w
  | Wrapper listener prevListener =>
      match call listener None w with
      | (Throw x, w) => (Throw x, w)
      | (Undetermined, w) => (Undetermined, w)
      | (Normal _, w) =>
          match call prevListener None w with
          | (Throw x, w) => (Throw x, w)
          | (Undetermined, w) => (Undetermined, w)
          | (Normal _, w) => (Normal RUndefined, w)
          end
      end
  | PageHandler id => (Normal RUndefined, record (PageHandlerRan id) w)
  end.

(** A click on an object that holds its handler in the [onclick] property:
    the host publishes the event as the global event and calls the property
    with the event. *)
Definition click_on (o : Obj) (e : Event) (w : World) : Completion RetVal * World :=
  match props o !! "onclick" with
  | None => (Normal RUndefined, w)
  | Some l =>
      call l (Some e) {| window_event := Some e;
                         popups_allowed := popups_allowed w;
                         document := document w;
                         dom_steps := dom_steps w;
                         calls := calls w |}
  end.

(** * Properties *)

(** ** Spec-side vocabulary *)

(** A click qualifies when the clicked element has a non-empty [href] and
    either [target="_blank"] or a modifier key held. *)
Definition qualifying (e : Event) (el : Element) (href : string) : Prop :=
  getAttribute el "href" = Some href ∧ href ≠ "" ∧
  (getAttribute el "target" = Some "_blank" ∨
   ctrlKey e = true ∨ shiftKey e = true ∨ metaKey e = true).

(** The test of line 26 (line 11 in the direct variant): neither a modifier
    nor [target="_blank"]. *)
Definition no_new_tab (e : Event) (el : Element) : bool :=
  negb (ctrlKey e || shiftKey e || metaKey e)
  && negb (bool_decide (getAttribute el "target" = Some "_blank")).

Definition is_cancel (c : HostCall) : bool :=
  match c with PreventDefault | ReturnValueFalse => true | _ => false end.

(** Number of times default navigation was cancelled. *)
Definition cancellations (cs : list HostCall) : nat :=
  length (List.filter is_cancel cs).

Definition is_injection_of (text : string) (c : HostCall) : bool :=
  match c with ScriptInjected _ t => String.eqb t text | _ => false end.

(** Number of times the indirect strategy injected its script for [url]. *)
Definition injections (url : string) (cs : list HostCall) : nat :=
  length (List.filter (is_injection_of (Blankshield.script_text url)) cs).

Definition is_injection (c : HostCall) : bool :=
  match c with ScriptInjected _ _ => true | _ => false end.

Definition is_window_open (c : HostCall) : bool :=
  match c with WindowOpen _ => true | _ => false end.

(** Number of times the page's own handler [id] ran. *)
Definition page_handler_runs (id : nat) (cs : list HostCall) : nat :=
  length (List.filter (fun c => match c with
                                | PageHandlerRan i => Nat.eqb i id
                                | _ => false
                                end) cs).

(** Calls made by a script from inside its frame. *)
Definition is_frame_call (c : HostCall) : bool :=
  match c with FrameRan _ _ | FrameThrew _ _ => true | _ => false end.

(** A character that may stand for itself inside a double-quoted literal.
    (The line separators U+2028 and U+2029, which engines before ES2019 also
    reject inside a literal, lie outside the 8-bit characters modelled.) *)
Definition literal_char (c : ascii) : bool :=
  negb (Ascii.eqb c Script.dquote) && negb (Ascii.eqb c Script.backslash)
  && negb (Script.is_line_terminator c).

Fixpoint literal_safe (url : string) : bool :=
  match url with
  | EmptyString => true
  | String c r => literal_char c && literal_safe r
  end.

(** The library's own text before and after the url. *)
Definition script_prefix : string :=
  "window.parent = null; window.top = null;" +:+
  ("window.frameElement = null; var child = window.open(" +:+ quote).

Definition script_suffix : string :=
  (quote +:+ ");") +:+ "child.opener = null".

Fixpoint has_dquote (s : string) : bool :=
  match s with
  | EmptyString => false
  | String c r => Ascii.eqb c Script.dquote || has_dquote r
  end.

(** The tokens of the injected script around the url. *)
Definition prefix_tokens : list Script.token :=
  [Script.TIdent "window"; Script.TDot; Script.TIdent "parent"; Script.TAssign;
   Script.TNull; Script.TSemi;
   Script.TIdent "window"; Script.TDot; Script.TIdent "top"; Script.TAssign;
   Script.TNull; Script.TSemi;
   Script.TIdent "window"; Script.TDot; Script.TIdent "frameElement";
   Script.TAssign; Script.TNull; Script.TSemi;
   Script.TVar; Script.TIdent "child"; Script.TAssign;
   Script.TIdent "window"; Script.TDot; Script.TIdent "open"; Script.TLParen].

Definition suffix_tokens : list Script.token :=
  [Script.TRParen; Script.TSemi;
   Script.TIdent "child"; Script.TDot; Script.TIdent "opener"; Script.TAssign;
   Script.TNull].

(** The url is one complete string literal of the script, and every other
    token is the library's own. *)
Definition embedded_as_literal (url : string) : Prop :=
  Script.lex (Blankshield.script_text url)
  = Script.Lexed (prefix_tokens ++ Script.TString url :: suffix_tokens).

(** The program [iframeOpen] means to inject for [url]. *)
Definition intended_program (url : string) : list Script.stmt :=
  [Script.NullOwn "parent";
   Script.NullOwn "top";
   Script.NullOwn "frameElement";
   Script.VarChildOpen url;
   Script.NullChildOpener].

Global Instance Listener_eq_dec : EqDecision Listener.
Proof. solve_decision. Defined.

(** How many times a call of [f] calls [l]. *)
Fixpoint invokes (l f : Listener) : nat :=
  match f with
  | Wrapper a b => invokes l a + invokes l b
  | _ => if decide (f = l) then 1 else 0
  end.

(** The registrations for a click that [o] holds and that call [l]: every
    [addEventListener] and [attachEvent] call the object received counts,
    and the function in [onclick] counts for the calls of [l] it makes.
    (Whether the object keeps a registration it is given twice is the
    host's affair: the count is of the registrations made.) *)
Definition click_registrations (l : Listener) (o : Obj) : nat :=
  sum_list_with (fun '(ty, f, _) => if String.eqb ty "click" then invokes l f else 0)
                (listeners o)
  + sum_list_with (fun '(ty, f) => if String.eqb ty "onclick" then invokes l f else 0)
                  (attached o)
  + match props o !! "onclick" with Some f => invokes l f | None => 0 end.

Definition has_numeric_length (o : Obj) : bool :=
  match length_prop o with LengthNumber _ => true | _ => false end.

(** Number of positions of the collection [l] that hold [r]. *)
Fixpoint occurrences (r : nat) (l : list nat) : nat :=
  match l with
  | [] => 0
  | x :: l' => (if decide (x = r) then 1 else 0) + occurrences r l'
  end.

Definition set_currentTarget (a : option Element) (e : Event) : Event :=
  {| ev_target := ev_target e; ev_srcElement := ev_srcElement e;
     ev_currentTarget := a;
     ctrlKey := ctrlKey e; shiftKey := shiftKey e; metaKey := metaKey e;
     has_preventDefault := has_preventDefault e |}.

(** ** Concrete inputs used below *)

Definition anchor (href tgt : string) : Element :=
  {| attributes := <["href" := href]> (<["target" := tgt]> ∅) |}.

Definition plain_span : Element := {| attributes := ∅ |}.

(** A standard click on [el], no modifier held. *)
Definition standard_click (el : Element) : Event :=
  {| ev_target := Some el; ev_srcElement := None; ev_currentTarget := Some el;
     ctrlKey := false; shiftKey := false; metaKey := false;
     has_preventDefault := true |}.

(** The event object a legacy host hands to [attachEvent] listeners. *)
Definition legacy_click (el : Element) : Event :=
  {| ev_target := None; ev_srcElement := Some el; ev_currentTarget := None;
     ctrlKey := false; shiftKey := false; metaKey := false;
     has_preventDefault := false |}.

Definition empty_page (popups : bool) : World :=
  {| window_event := None; popups_allowed := popups;
     document := {| body := []; root_children := []; frames := ∅ |};
     dom_steps := []; calls := [] |}.

(** An object with neither registration method. *)
Definition bare_object (len : LengthProp) (onclick : option Listener) : Obj :=
  {| length_prop := len; items := [];
     has_addEventListener := false; has_attachEvent := false;
     listeners := []; attached := [];
     props := match onclick with
              | Some l => <["onclick" := l]> ∅
              | None => ∅
              end |}.

(** A DOM element of a current browser. *)
Definition dom_object (len : LengthProp) : Obj :=
  {| length_prop := len; items := [];
     has_addEventListener := true; has_attachEvent := false;
     listeners := []; attached := []; props := ∅ |}.

(** An array of references. *)
Definition array_object (rs : list nat) : Obj :=
  {| length_prop := LengthNumber (Z.of_nat (length rs)); items := rs;
     has_addEventListener := false; has_attachEvent := false;
     listeners := []; attached := []; props := ∅ |}.


(** ** Vocabulary for loading and for registrations of any event type *)

Definition set_root (root : Ref) (env : LoadEnv) : LoadEnv :=
  {| env_exports := env_exports env; env_module := env_module env;
     env_define := env_define env; env_root := root |}.

(** A page without module system: [this] is the window. *)
Definition page_env (window : nat) : LoadEnv :=
  {| env_exports := NoValue; env_module := ModuleUndefined;
     env_define := NotAFunction; env_root := ObjectRef window |}.

(** A CommonJS module as Node runs it: [this], [exports] and the initial
    [module.exports] are one object. *)
Definition node_env (exports : nat) : LoadEnv :=
  {| env_exports := ObjectRef exports; env_module := ModuleObject true;
     env_define := NotAFunction; env_root := ObjectRef exports |}.

(** The same for an event of any type [ty]: every registration call the
    object received counts for one. *)
Definition registrations (ty : string) (l : Listener) (o : Obj) : nat :=
  sum_list_with (fun '(t, f, _) => if String.eqb t ty then invokes l f else 0)
                (listeners o)
  + sum_list_with (fun '(t, f) => if String.eqb t ("on" +:+ ty) then invokes l f else 0)
                  (attached o)
  + match props o !! ("on" +:+ ty) with Some f => invokes l f | None => 0 end.

(** The global event as the host publishes it before calling a handler. *)
Definition publish (e : Event) (w : World) : World :=
  {| window_event := Some e;
     popups_allowed := popups_allowed w;
     document := document w;
     dom_steps := dom_steps w;
     calls := calls w |}.

(** ** Vocabulary for the steps made on the document *)

(** The document after the steps [ss], made in order from [d]. *)
Definition replay (ss : list DomStep) (d : Document) : Document :=
  foldl (fun d s => apply_step s d) d ss.

(** The five steps of one [iframeOpen(url)] with the frame [n]. *)
Definition iframeOpen_steps (n : nat) (url : string) : list DomStep :=
  [FrameCreated n; DisplaySet n "none"; AppendedToBody n;
   ScriptAppended n (Blankshield.script_text url); RemovedFromBody n].

(** The calls the library's script makes from frame [n] for a url that is
    one literal of it: with a handle from [window.open] it nulls the
    opener, with [null] it fails there. *)
Definition script_calls (n : nat) (url : string) (popups : bool) : list HostCall :=
  [FrameRan n (Script.ClearOwn "parent");
   FrameRan n (Script.ClearOwn "top");
   FrameRan n (Script.ClearOwn "frameElement");
   FrameRan n (Script.Open url);
   if popups then FrameRan n Script.ClearOpener else FrameThrew n TypeError].

(** An href that closes the literal and the call of [window.open], and
    brings a statement of its own: the script moves its frame from [body]
    to the document element. *)
Definition move_frame_url : string :=
  quote +:+ ");frameElement.ownerDocument.documentElement.appendChild(frameElement);("
        +:+ quote.

(** * Lemmas and theorems *)

(** Closes [qualifying e el href] on concrete inputs. *)
Ltac solve_qualifying :=
  split; [reflexivity|];
  split; [discriminate|];
  first [ left; reflexivity
        | right; left; reflexivity
        | right; right; left; reflexivity
        | right; right; right; reflexivity ].

(** ** The injected script *)

Lemma append_cons (c : ascii) (s t : string) :
  String c s +:+ t = String c (s +:+ t).
Proof. reflexivity. Qed.

Lemma append_nil_r (s : string) : s +:+ "" = s.
Proof. induction s as [|c s IH]; [done|]. by rewrite append_cons, IH. Qed.

Lemma append_assoc (a b c : string) : (a +:+ b) +:+ c = a +:+ (b +:+ c).
Proof. induction a as [|x a IH]; [done|]. by rewrite !append_cons, IH. Qed.

(** Inside a string literal the lexer copies a run of literal characters. *)
Lemma lex_from_literal_run (url acc rest : string) :
  literal_safe url = true →
  Script.lex_from (Script.InString acc) (url +:+ rest)
  = Script.lex_from (Script.InString (acc +:+ url)) rest.
Proof.
  revert acc. induction url as [|c url IH]; intros acc Hsafe.
  { by rewrite append_nil_r. }
  cbn [literal_safe] in Hsafe. apply andb_true_iff in Hsafe as [Hc Hsafe].
  unfold literal_char in Hc.
  apply andb_true_iff in Hc as [Hc Hlt]. apply andb_true_iff in Hc as [Hq Hb].
  apply negb_true_iff in Hq, Hb, Hlt.
  rewrite append_cons. cbn [Script.lex_from]. rewrite Hq, Hb, Hlt.
  rewrite IH by done. unfold Script.snoc. by rewrite append_assoc.
Qed.

Lemma script_text_split (url : string) :
  Blankshield.script_text url = script_prefix +:+ (url +:+ script_suffix).
Proof.
  unfold Blankshield.script_text, script_prefix, script_suffix.
  by rewrite !append_assoc.
Qed.

(** The library's own text up to the opening quote leaves the lexer inside
    an empty string literal. *)
Lemma lex_script_prefix (rest : string) :
  Script.lex (script_prefix +:+ rest)
  = fold_right Script.emit (Script.lex_from (Script.InString "") rest) prefix_tokens.
Proof. reflexivity. Qed.

Lemma lex_script_suffix (acc : string) :
  Script.lex_from (Script.InString acc) script_suffix
  = Script.Lexed (Script.TString acc :: suffix_tokens).
Proof. reflexivity. Qed.

Lemma fold_emit_lexed (pre ts : list Script.token) :
  fold_right Script.emit (Script.Lexed ts) pre = Script.Lexed (pre ++ ts).
Proof. induction pre as [|t pre IH]; cbn; [done|]. by rewrite IH. Qed.

Lemma lex_script_text (url : string) :
  literal_safe url = true →
  Script.lex (Blankshield.script_text url)
  = Script.Lexed (prefix_tokens ++ Script.TString url :: suffix_tokens).
Proof.
  intros Hsafe.
  rewrite script_text_split, lex_script_prefix.
  rewrite lex_from_literal_run by done.
  change ("" +:+ url) with url.
  rewrite lex_script_suffix. apply fold_emit_lexed.
Qed.

Lemma parse_script_text (url : string) :
  literal_safe url = true →
  Script.parse (Blankshield.script_text url) = Script.Program (intended_program url).
Proof.
  intros Hsafe. unfold Script.parse. rewrite lex_script_text by done. reflexivity.
Qed.

Lemma run_script_text (url : string) :
  literal_safe url = true →
  Script.run true (Blankshield.script_text url)
  = Some ([Script.ClearOwn "parent"; Script.ClearOwn "top";
           Script.ClearOwn "frameElement"; Script.Open url;
           Script.ClearOpener], Normal tt).
Proof.
  intros Hsafe. unfold Script.run. rewrite parse_script_text by done. reflexivity.
Qed.

Lemma run_script_text_blocked (url : string) :
  literal_safe url = true →
  Script.run false (Blankshield.script_text url)
  = Some ([Script.ClearOwn "parent"; Script.ClearOwn "top";
           Script.ClearOwn "frameElement"; Script.Open url],
          Throw TypeError).
Proof.
  intros Hsafe. unfold Script.run. rewrite parse_script_text by done. reflexivity.
Qed.

(** Where C4 holds: for every url that contains no double quote, no
    backslash, no line feed and no carriage return, the url is exactly one
    complete string literal of the injected script, and all other tokens of
    the script are the library's own, the same for every such url.
    [script_text] concatenates the url as it is. *)
Theorem safe_url_embedded_as_literal (url : string) :
  literal_safe url = true → embedded_as_literal url.
Proof. apply lex_script_text. Qed.

Lemma safe_url_embedded_as_literal_witness :
  embedded_as_literal "http://example.com/a?b=1&c=it's".
Proof.
  apply (safe_url_embedded_as_literal "http://example.com/a?b=1&c=it's").
  reflexivity.
Defined.

(** C4: the code does not do what the claim says.  [script_text] pastes the
    url between two quotes without escaping it, so a double quote in the url
    ends the literal, and the characters after it are lexed, parsed and run
    as script of their own.  For the url below the url is not a literal of
    the text, the text has a statement more than the library's, and
    [iframeOpen] with it opens two windows, neither of them for the url it
    was given. *)
Theorem quote_in_url_injects_statement :
  let url := "x" +:+ quote +:+ ");var child = window.open(" +:+ quote
             +:+ "http://evil.example/" in
  let iframe := new_node (document (empty_page true)) in
  literal_safe url = false ∧
  ¬ embedded_as_literal url ∧
  Script.lex (Blankshield.script_text url)
  = Script.Lexed (prefix_tokens ++
      [Script.TString "x"; Script.TRParen; Script.TSemi;
       Script.TVar; Script.TIdent "child"; Script.TAssign;
       Script.TIdent "window"; Script.TDot; Script.TIdent "open"; Script.TLParen;
       Script.TString "http://evil.example/"] ++ suffix_tokens) ∧
  Script.run true (Blankshield.script_text url)
  = Some ([Script.ClearOwn "parent"; Script.ClearOwn "top";
           Script.ClearOwn "frameElement"; Script.Open "x";
           Script.Open "http://evil.example/";
           Script.ClearOpener], Normal tt) ∧
  ∃ w', Blankshield.iframeOpen url (empty_page true) = (Normal tt, w') ∧
        calls w'
        = [ScriptInjected iframe (Blankshield.script_text url);
           FrameRan iframe (Script.ClearOwn "parent");
           FrameRan iframe (Script.ClearOwn "top");
           FrameRan iframe (Script.ClearOwn "frameElement");
           FrameRan iframe (Script.Open "x");
           FrameRan iframe (Script.Open "http://evil.example/");
           FrameRan iframe Script.ClearOpener].
Proof.
  intros url iframe. split; [reflexivity|]. split; [|split; [reflexivity|split]].
  - unfold embedded_as_literal. intros H. vm_compute in H. discriminate H.
  - reflexivity.
  - eexists. split; vm_compute; reflexivity.
Qed.

(** Where C5 holds: for every url that contains no double quote, no
    backslash, no line feed and no carriage return, the injected script is
    the program of five statements, in this order: null [window.parent],
    [window.top] and [window.frameElement]; call [window.open] with the url
    and keep the handle in [child]; null [child.opener].  Run where
    [window.open] returns a handle, it performs exactly these five actions
    in this order and completes normally.  Run where [window.open] returns
    [null], it performs the first four and ends in a TypeError at the fifth:
    the opener is not nulled, there being no window. *)
Theorem script_performs_intended_program (url : string) :
  literal_safe url = true →
  Script.parse (Blankshield.script_text url) = Script.Program (intended_program url)
  ∧ Script.run true (Blankshield.script_text url)
    = Some ([Script.ClearOwn "parent"; Script.ClearOwn "top";
             Script.ClearOwn "frameElement"; Script.Open url;
             Script.ClearOpener], Normal tt)
  ∧ Script.run false (Blankshield.script_text url)
    = Some ([Script.ClearOwn "parent"; Script.ClearOwn "top";
             Script.ClearOwn "frameElement"; Script.Open url],
            Throw TypeError).
Proof.
  intros Hsafe.
  split; [by apply parse_script_text|].
  split; [by apply run_script_text | by apply run_script_text_blocked].
Qed.

Lemma script_performs_intended_program_witness :
  Script.parse (Blankshield.script_text "http://example.com/")
  = Script.Program (intended_program "http://example.com/")
  ∧ Script.run true (Blankshield.script_text "http://example.com/")
    = Some ([Script.ClearOwn "parent"; Script.ClearOwn "top";
             Script.ClearOwn "frameElement"; Script.Open "http://example.com/";
             Script.ClearOpener], Normal tt)
  ∧ Script.run false (Blankshield.script_text "http://example.com/")
    = Some ([Script.ClearOwn "parent"; Script.ClearOwn "top";
             Script.ClearOwn "frameElement"; Script.Open "http://example.com/"],
            Throw TypeError).
Proof.
  apply (script_performs_intended_program "http://example.com/"). reflexivity.
Defined.

(** C5: the code does not do what the claim says, by the defect of C4.  For
    the url consisting of one double quote the injected text is not a
    script at all: the literal ends at once, a second literal opens and
    never closes, and the text is rejected with a SyntaxError before any
    statement runs.  [iframeOpen] with this url injects the text and
    returns normally; no reference is nulled and no window is opened. *)
Theorem lone_quote_url_is_syntax_error :
  let iframe := new_node (document (empty_page true)) in
  literal_safe quote = false ∧
  Script.parse (Blankshield.script_text quote) = Script.ParseSyntaxError ∧
  Script.run true (Blankshield.script_text quote) = Some ([], Throw SyntaxError) ∧
  Script.run false (Blankshield.script_text quote) = Some ([], Throw SyntaxError) ∧
  ∃ w', Blankshield.iframeOpen quote (empty_page true) = (Normal tt, w') ∧
        calls w' = [ScriptInjected iframe (Blankshield.script_text quote);
                    FrameThrew iframe SyntaxError].
Proof.
  intros iframe. repeat (split; [reflexivity|]).
  eexists. split; vm_compute; reflexivity.
Qed.



(** ** Only literal-safe urls are embedded as a literal *)

Lemma emit_inv (t t' : Script.token) (x : Script.lexed) (ts : list Script.token) :
  Script.emit t x = Script.Lexed (t' :: ts) → t = t' ∧ x = Script.Lexed ts.
Proof. destruct x; cbn; intros H; [|discriminate..]. by injection H as -> ->. Qed.

Lemma fold_emit_inv (pre ts : list Script.token) (x : Script.lexed) :
  fold_right Script.emit x pre = Script.Lexed ts →
  ∃ ts', x = Script.Lexed ts' ∧ ts = (pre ++ ts')%list.
Proof.
  revert ts. induction pre as [|t pre IH]; intros ts H; cbn in H.
  { by exists ts. }
  destruct (fold_right Script.emit x pre) as [l| |] eqn:Hf; cbn in H; [|discriminate..].
  injection H as <-. destruct (IH l eq_refl) as (ts' & -> & ->). by exists ts'.
Qed.

Lemma length_append (a b : string) :
  String.length (a +:+ b) = String.length a + String.length b.
Proof. induction a as [|c a IH]; [done|]. rewrite append_cons. cbn. by rewrite IH. Qed.

Lemma first_unsafe (url : string) :
  literal_safe url = false →
  ∃ s c r, url = s +:+ String c r ∧ literal_safe s = true ∧ literal_char c = false.
Proof.
  induction url as [|c url IH]; [discriminate|].
  cbn [literal_safe]. destruct (literal_char c) eqn:Hc; cbn [andb].
  - intros H. destruct (IH H) as (s & c' & r & -> & Hs & Hc').
    exists (String c s), c', r. split; [done|]. split; [|done].
    cbn [literal_safe]. by rewrite Hc, Hs.
  - intros _. by exists "", c, url.
Qed.

(** A literal that the lexer completes ends at a double quote of the input,
    and is no longer than what was read before that quote. *)
Lemma literal_scan_bound (t : string) :
  ∀ acc v ts,
    (Script.lex_from (Script.InString acc) t = Script.Lexed (Script.TString v :: ts) →
     ∃ t1 t2, t = t1 +:+ String Script.dquote t2
              ∧ (String.length v ≤ String.length acc + String.length t1)%nat)
    ∧ (Script.lex_from (Script.InEscape acc) t = Script.Lexed (Script.TString v :: ts) →
       ∃ t1 t2, t = t1 +:+ String Script.dquote t2
                ∧ (String.length v ≤ String.length acc + String.length t1)%nat).
Proof.
  induction t as [|c t IH]; intros acc v ts.
  { split; discriminate. }
  split; cbn [Script.lex_from].
  - destruct (Ascii.eqb c Script.dquote) eqn:Hq.
    { intros [Hv _]%emit_inv. injection Hv as <-.
      apply Ascii.eqb_eq in Hq as ->. exists "", t. split; [done|]. lia. }
    destruct (Ascii.eqb c Script.backslash).
    { intros H. destruct (proj2 (IH acc v ts) H) as (t1 & t2 & -> & Hlen).
      exists (String c t1), t2. split; [done|]. cbn. lia. }
    destruct (Script.is_line_terminator c); [discriminate|].
    intros H. destruct (proj1 (IH _ v ts) H) as (t1 & t2 & -> & Hlen).
    exists (String c t1), t2. split; [done|].
    unfold Script.snoc in Hlen. rewrite length_append in Hlen. cbn in *. lia.
  - destruct (Script.unescape c) as [d|]; [|discriminate].
    intros H. destruct (proj1 (IH _ v ts) H) as (t1 & t2 & -> & Hlen).
    exists (String c t1), t2. split; [done|].
    unfold Script.snoc in Hlen. rewrite length_append in Hlen. cbn in *. lia.
Qed.

Lemma append_split (r x t1 y : string) :
  r +:+ x = t1 +:+ y →
  (String.length r ≤ String.length t1)%nat →
  ∃ u, t1 = r +:+ u ∧ x = u +:+ y.
Proof.
  revert t1. induction r as [|c r IH]; intros t1 H Hlen.
  { by exists t1. }
  destruct t1 as [|c' t1]; [cbn in Hlen; lia|].
  rewrite !append_cons in H. injection H as <- H.
  destruct (IH t1 H) as (u & -> & ->); [cbn in Hlen; lia|].
  by exists u.
Qed.

Lemma has_dquote_append (a b : string) :
  has_dquote (a +:+ String Script.dquote b) = true.
Proof.
  induction a as [|c a IH]; [done|].
  rewrite append_cons. cbn [has_dquote]. rewrite IH. apply orb_true_r.
Qed.

Lemma unsafe_char_cases (c : ascii) :
  literal_char c = false →
  c = Script.dquote ∨ c = Script.backslash ∨ Script.is_line_terminator c = true.
Proof.
  unfold literal_char. intros H.
  apply andb_false_iff in H as [H|H]; [apply andb_false_iff in H as [H|H]|].
  - left. by apply Ascii.eqb_eq, negb_false_iff.
  - right. left. by apply Ascii.eqb_eq, negb_false_iff.
  - right. right. by apply negb_false_iff.
Qed.

(** If the literal opened by the library's quote is completed with the
    url as its value, the url is literal-safe. *)
Lemma first_literal_is_url (url : string) (ts : list Script.token) :
  Script.lex_from (Script.InString "") (url +:+ script_suffix)
  = Script.Lexed (Script.TString url :: ts) →
  literal_safe url = true.
Proof.
  intros HX. destruct (literal_safe url) eqn:Hs; [done|]. exfalso.
  destruct (first_unsafe url Hs) as (s & c & r & -> & Hsafe & Hc).
  rewrite append_assoc, lex_from_literal_run in HX by done.
  change ("" +:+ s) with s in HX. rewrite append_cons in HX.
  assert (Hlen : String.length (s +:+ String c r) = String.length s + S (String.length r)).
  { by rewrite length_append. }
  destruct (unsafe_char_cases c Hc) as [-> | [-> | Hlt]].
  - cbn [Script.lex_from] in HX. rewrite Ascii.eqb_refl in HX.
    apply emit_inv in HX as [Hv _]. injection Hv as Hv.
    apply (f_equal String.length) in Hv. rewrite Hlen in Hv. lia.
  - cbn [Script.lex_from] in HX.
    change (Ascii.eqb Script.backslash Script.dquote) with false in HX.
    rewrite Ascii.eqb_refl in HX.
    destruct (proj2 (literal_scan_bound _ _ _ _) HX) as (t1 & t2 & Hsplit & Hbound).
    rewrite Hlen in Hbound.
    destruct (append_split r script_suffix t1 (String Script.dquote t2) Hsplit)
      as (u & -> & Hsuffix); [lia|].
    rewrite length_append in Hbound.
    destruct u as [|x u]; [cbn in Hbound; lia|].
    unfold script_suffix, quote in Hsuffix.
    rewrite !append_cons in Hsuffix. injection Hsuffix as _ Hsuffix.
    apply (f_equal has_dquote) in Hsuffix.
    rewrite has_dquote_append in Hsuffix. discriminate Hsuffix.
  - cbn [Script.lex_from] in HX. rewrite Hlt in HX.
    destruct (Ascii.eqb c Script.dquote) eqn:Hq.
    { apply Ascii.eqb_eq in Hq as ->. discriminate Hlt. }
    destruct (Ascii.eqb c Script.backslash) eqn:Hb.
    { apply Ascii.eqb_eq in Hb as ->. discriminate Hlt. }
    discriminate HX.
Qed.

(** The converse for C4: a url that is one complete string literal
    of the injected script, with the library's own tokens around it,
    contains no double quote, no backslash, no line feed and no carriage
    return. *)
Theorem embedded_literal_only_if_safe (url : string) :
  embedded_as_literal url → literal_safe url = true.
Proof.
  unfold embedded_as_literal. intros Hemb.
  rewrite script_text_split, lex_script_prefix in Hemb.
  apply fold_emit_inv in Hemb as (ts' & HX & Hts).
  apply app_inv_head in Hts. subst ts'.
  by apply (first_literal_is_url url suffix_tokens).
Qed.

Lemma embedded_literal_only_if_safe_witness :
  literal_safe "http://example.com/" = true.
Proof.
  apply (embedded_literal_only_if_safe "http://example.com/"). reflexivity.
Defined.

(** The first token of a completed literal is the literal. *)
Lemma lex_from_literal_first (t : string) :
  ∀ acc l,
    (Script.lex_from (Script.InString acc) t = Script.Lexed l →
     ∃ v l', l = Script.TString v :: l')
    ∧ (Script.lex_from (Script.InEscape acc) t = Script.Lexed l →
       ∃ v l', l = Script.TString v :: l').
Proof.
  induction t as [|c t IH]; intros acc l.
  { split; discriminate. }
  split; cbn [Script.lex_from].
  - destruct (Ascii.eqb c Script.dquote).
    { destruct (Script.lex_from Script.Start t) as [l0| |]; cbn; [|discriminate..].
      intros H. injection H as <-. by eexists _, _. }
    destruct (Ascii.eqb c Script.backslash); [apply IH|].
    destruct (Script.is_line_terminator c); [discriminate|]. apply IH.
  - destruct (Script.unescape c); [apply IH|discriminate].
Qed.

Lemma split_stmts_head (ts cur : list Script.token) :
  ∃ a tl, Script.split_stmts cur ts = (cur ++ a)%list :: tl.
Proof.
  revert cur. induction ts as [|t ts IH]; intros cur.
  { exists [], []. by rewrite app_nil_r. }
  destruct t; cbn [Script.split_stmts];
    try match goal with
        | |- context [Script.split_stmts (cur ++ [?t]) ts] =>
            destruct (IH (cur ++ [t])%list) as (a & tl & Heq);
            rewrite Heq; exists (t :: a), tl; by rewrite <- app_assoc
        end.
  exists [], (Script.split_stmts [] ts). by rewrite app_nil_r.
Qed.

(** The statement that calls [window.open] takes its argument from the
    literal opened by the library's quote. *)
Lemma parse_open_argument (v url : string) (rest : list Script.token) :
  Script.parse_stmts (Script.split_stmts [] (prefix_tokens ++ Script.TString v :: rest))
  = Some (intended_program url) →
  v = url.
Proof.
  change (Script.split_stmts [] (prefix_tokens ++ Script.TString v :: rest))
    with ([Script.TIdent "window"; Script.TDot; Script.TIdent "parent";
           Script.TAssign; Script.TNull]
          :: [Script.TIdent "window"; Script.TDot; Script.TIdent "top";
              Script.TAssign; Script.TNull]
          :: [Script.TIdent "window"; Script.TDot; Script.TIdent "frameElement";
              Script.TAssign; Script.TNull]
          :: Script.split_stmts
               [Script.TVar; Script.TIdent "child"; Script.TAssign;
                Script.TIdent "window"; Script.TDot; Script.TIdent "open";
                Script.TLParen; Script.TString v] rest).
  destruct (split_stmts_head rest
              [Script.TVar; Script.TIdent "child"; Script.TAssign;
               Script.TIdent "window"; Script.TDot; Script.TIdent "open";
               Script.TLParen; Script.TString v]) as (a & tl & ->).
  cbn [Script.parse_stmts app].
  change (Script.parse_stmt [Script.TIdent "window"; Script.TDot; Script.TIdent "parent";
                             Script.TAssign; Script.TNull])
    with (Some (Script.NullOwn "parent")).
  change (Script.parse_stmt [Script.TIdent "window"; Script.TDot; Script.TIdent "top";
                             Script.TAssign; Script.TNull])
    with (Some (Script.NullOwn "top")).
  change (Script.parse_stmt [Script.TIdent "window"; Script.TDot;
                             Script.TIdent "frameElement";
                             Script.TAssign; Script.TNull])
    with (Some (Script.NullOwn "frameElement")).
  destruct a as [|x [|y [|z a]]]; cbn; try discriminate.
  destruct (Script.token_eqb x Script.TRParen); cbn; [|discriminate].
  destruct (Script.parse_stmts tl) as [p|]; [|discriminate].
  unfold intended_program. intros H. by injection H as -> _.
Qed.

(** The converse for C5: when the injected text is the program of
    the five statements for the url, the url contains no double quote, no
    backslash, no line feed and no carriage return. *)
Theorem intended_program_only_if_safe (url : string) :
  Script.parse (Blankshield.script_text url) = Script.Program (intended_program url) →
  literal_safe url = true.
Proof.
  unfold Script.parse. rewrite script_text_split, lex_script_prefix.
  destruct (fold_right _ _ _) as [ts| |] eqn:Hlex; [|discriminate..].
  apply fold_emit_inv in Hlex as (ts' & HX & ->).
  destruct (proj1 (lex_from_literal_first _ _ _) HX) as (v & l' & ->).
  destruct (Script.parse_stmts _) as [p|] eqn:Hp; [|discriminate].
  intros H. injection H as ->.
  apply parse_open_argument in Hp as ->.
  by apply (first_literal_is_url url l').
Qed.

Lemma intended_program_only_if_safe_witness :
  literal_safe "http://example.com/" = true.
Proof.
  apply (intended_program_only_if_safe "http://example.com/"). reflexivity.
Defined.


(** ** The document tree *)

Lemma new_node_fresh (d : Document) : new_node d ∉ body d.
Proof.
  unfold new_node. intros Hin.
  apply (is_fresh (list_to_set (body d) ∪ list_to_set (root_children d)
                   ∪ dom (frames d) : gset nat)).
  apply elem_of_union. left. apply elem_of_union. left.
  by apply elem_of_list_to_set.
Qed.

Lemma new_node_fresh_root (d : Document) : new_node d ∉ root_children d.
Proof.
  unfold new_node. intros Hin.
  apply (is_fresh (list_to_set (body d) ∪ list_to_set (root_children d)
                   ∪ dom (frames d) : gset nat)).
  apply elem_of_union. left. apply elem_of_union. right.
  by apply elem_of_list_to_set.
Qed.

Lemma new_node_out (d : Document) : ¬ in_tree (new_node d) d.
Proof.
  intros [H | H]; [by apply new_node_fresh in H | by apply new_node_fresh_root in H].
Qed.

Lemma new_node_no_frame (d : Document) : frames d !! new_node d = None.
Proof.
  apply not_elem_of_dom. unfold new_node. intros Hin.
  apply (is_fresh (list_to_set (body d) ∪ list_to_set (root_children d)
                   ∪ dom (frames d) : gset nat)).
  apply elem_of_union. by right.
Qed.

Lemma filter_other_id (n : nat) (l : list nat) :
  n ∉ l → filter (fun m => m ≠ n) l = l.
Proof.
  induction l as [|x l IH]; [done|].
  intros [Hx Hl]%not_elem_of_cons.
  rewrite filter_cons_True by (intros ->; by apply Hx).
  by rewrite IH.
Qed.

Lemma filter_other_absent (n : nat) (l : list nat) :
  n ∉ filter (fun m => m ≠ n) l.
Proof. intros H. apply list_elem_of_filter in H as [H _]. by apply H. Qed.

Lemma filter_appended (n : nat) (l : list nat) :
  n ∉ l → filter (fun m => m ≠ n) (filter (fun m => m ≠ n) l ++ [n])%list = l.
Proof.
  intros Hn. rewrite filter_app, !(filter_other_id n l) by done.
  rewrite filter_cons_False by (intros H; by apply H).
  by rewrite filter_nil, app_nil_r.
Qed.

Lemma appendChild_elem (n : nat) (w : World) : n ∈ body (document (appendChild n w)).
Proof.
  cbn. apply elem_of_app. right. by apply list_elem_of_singleton.
Qed.

(** The document is the replay of the steps made. *)
Lemma step_all_replay (ss : list DomStep) (w : World) :
  document (step_all ss w) = replay ss (document w)
  ∧ dom_steps (step_all ss w) = (dom_steps w ++ ss)%list.
Proof.
  revert w. unfold step_all, replay.
  induction ss as [|s ss IH]; intros w; cbn [foldl].
  - by rewrite app_nil_r.
  - destruct (IH (step s w)) as [H1 H2]. rewrite H1, H2.
    cbn [document dom_steps step]. by rewrite <- app_assoc.
Qed.

Create HintDb tree discriminated.
#[local] Hint Resolve new_node_fresh new_node_fresh_root filter_other_absent
  appendChild_elem : tree.

(** ** [iframeOpen] with a url that stays inside its literal *)

(** The library's script in its frame: it makes no step on the page's
    document. *)
Lemma run_in_frame_safe (n : nat) (url : string) (w : World) :
  literal_safe url = true →
  run_in_frame n (Blankshield.script_text url) w
  = Some (record_all (script_calls n url (popups_allowed w)) w).
Proof.
  intros Hsafe. unfold run_in_frame, script_calls.
  destruct (popups_allowed w).
  - by rewrite run_script_text.
  - by rewrite run_script_text_blocked.
Qed.

(** The state [iframeOpen] returns in, step by step. *)
Lemma iframeOpen_safe (url : string) (w : World) :
  literal_safe url = true →
  let n := new_node (document w) in
  let text := Blankshield.script_text url in
  Blankshield.iframeOpen url w
  = (Normal tt,
     step (RemovedFromBody n)
       (record_all (script_calls n url (popups_allowed w))
          (record (ScriptInjected n text)
             (step (ScriptAppended n text)
                (step (AppendedToBody n)
                   (step (DisplaySet n "none") (step (FrameCreated n) w))))))).
Proof.
  intros Hsafe n text. unfold Blankshield.iframeOpen.
  change (createElement_iframe w) with (n, step (FrameCreated n) w).
  cbv beta iota zeta. unfold set_display.
  set (w2 := appendChild n _).
  assert (Hin : n ∈ body (document w2)) by (subst w2; auto with tree).
  unfold contentDocument. rewrite decide_True by (by left). cbn [or_else].
  unfold appendScript. rewrite run_in_frame_safe by done.
  unfold removeChild. by rewrite decide_True by done.
Qed.

Lemma script_calls_frame (n : nat) (url : string) (popups : bool) :
  forallb is_frame_call (script_calls n url popups) = true.
Proof. by destruct popups. Qed.

(** Everything one such call changes. *)
Lemma iframeOpen_effects (url : string) (w : World) :
  literal_safe url = true →
  let n := new_node (document w) in
  ∃ w',
    Blankshield.iframeOpen url w = (Normal tt, w')
    ∧ calls w' = (calls w ++ ScriptInjected n (Blankshield.script_text url)
                            :: script_calls n url (popups_allowed w))%list
    ∧ dom_steps w' = (dom_steps w ++ iframeOpen_steps n url)%list
    ∧ document w' = replay (iframeOpen_steps n url) (document w)
    ∧ body (document w') = body (document w)
    ∧ root_children (document w') = root_children (document w)
    ∧ window_event w' = window_event w
    ∧ popups_allowed w' = popups_allowed w.
Proof.
  intros Hsafe n. eexists. split; [by apply iframeOpen_safe|].
  split; [|split; [|split; [done|split; [|split; [|done]]]]].
  - cbn. by rewrite <- !app_assoc.
  - cbn. by rewrite <- !app_assoc.
  - cbn. apply filter_appended. subst n. auto with tree.
  - cbn. rewrite !(filter_other_id n) by (subst n; auto with tree). done.
Qed.

Lemma filter_frame_calls (p : HostCall → bool) (cs : list HostCall) :
  (∀ c, is_frame_call c = true → p c = false) →
  forallb is_frame_call cs = true → List.filter p cs = [].
Proof.
  intros Hp. induction cs as [|c cs IH]; [done|]. cbn.
  intros [Hc Hcs]%andb_true_iff. rewrite (Hp c Hc). by apply IH.
Qed.

Lemma cancellations_app (a b : list HostCall) :
  cancellations (a ++ b) = cancellations a + cancellations b.
Proof. unfold cancellations. by rewrite List.filter_app, length_app. Qed.

Lemma injections_app (url : string) (a b : list HostCall) :
  injections url (a ++ b) = injections url a + injections url b.
Proof. unfold injections. by rewrite List.filter_app, length_app. Qed.

(** The positive half of C6, on urls that stay inside their literal: for
    every url without double quote, backslash, line feed or carriage return,
    the steps one call of [iframeOpen] makes on the document are, in this
    order, the frame created, hidden, appended to [body], the script
    appended to the frame's document, and the frame removed from [body];
    the call returns normally.  The frame is a node that was not in the
    tree; in the states after the third and the fourth step it is a child
    of [body]; in the state the call returns in it is not in the tree, and
    the children of [body] and of the document element are those from
    before the call. *)
Theorem iframeOpen_surface_transient (url : string) (w : World) :
  literal_safe url = true →
  let iframe := new_node (document w) in
  let steps := iframeOpen_steps iframe url in
  ¬ in_tree iframe (document w) ∧
  ∃ w_final,
    Blankshield.iframeOpen url w = (Normal tt, w_final) ∧
    dom_steps w_final = (dom_steps w ++ steps)%list ∧
    document w_final = replay steps (document w) ∧
    (iframe ∈ body (replay (take 3 steps) (document w))) ∧
    (iframe ∈ body (replay (take 4 steps) (document w))) ∧
    ¬ in_tree iframe (document w_final) ∧
    body (document w_final) = body (document w) ∧
    root_children (document w_final) = root_children (document w).
Proof.
  intros Hsafe iframe steps.
  assert (Hout : ¬ in_tree iframe (document w)) by (subst iframe; apply new_node_out).
  split; [done|].
  destruct (iframeOpen_effects url w Hsafe)
    as (w' & Hopen & _ & Hsteps & Hdoc & Hbody & Hroot & _).
  exists w'. split; [done|]. split; [done|]. split; [done|].
  split; [|split; [|split]].
  - cbn. apply elem_of_app. right. by apply list_elem_of_singleton.
  - cbn. apply elem_of_app. right. by apply list_elem_of_singleton.
  - unfold in_tree. by rewrite Hbody, Hroot.
  - done.
Qed.

Lemma iframeOpen_surface_transient_witness :
  let w := empty_page true in
  let iframe := new_node (document w) in
  let steps := iframeOpen_steps iframe "http://example.com/" in
  ¬ in_tree iframe (document w) ∧
  ∃ w_final,
    Blankshield.iframeOpen "http://example.com/" w = (Normal tt, w_final) ∧
    dom_steps w_final = (dom_steps w ++ steps)%list ∧
    document w_final = replay steps (document w) ∧
    (iframe ∈ body (replay (take 3 steps) (document w))) ∧
    (iframe ∈ body (replay (take 4 steps) (document w))) ∧
    ¬ in_tree iframe (document w_final) ∧
    body (document w_final) = body (document w) ∧
    root_children (document w_final) = root_children (document w).
Proof.
  exact (iframeOpen_surface_transient "http://example.com/" (empty_page true) eq_refl).
Defined.

Lemma move_frame_run (popups : bool) :
  Script.run popups (Blankshield.script_text move_frame_url)
  = Some (([Script.ClearOwn "parent"; Script.ClearOwn "top";
            Script.ClearOwn "frameElement"; Script.Open ""; Script.MoveFrame]
           ++ (if popups then [Script.ClearOpener] else []))%list,
          if popups then Normal tt else Throw TypeError).
Proof. by destruct popups. Qed.

(** C6: the claim fails, by the defect of C4.  The href [move_frame_url]
    closes the literal and brings one statement of its own into the injected
    script, by which the script appends its frame to the document element.
    On every page, [iframeOpen] with this href creates the frame, hides it,
    appends it to [body] and injects the script; the script moves the frame;
    [document.body.removeChild(iframe)] then throws a NotFoundError, since
    the frame is not a child of [body] any more, and [iframeOpen] ends by
    that error with the frame in the tree.  A qualifying click on a link
    with this href ends by the same error in [clickListener], and nothing is
    cancelled. *)
Theorem iframeOpen_injected_script_keeps_frame (w : World) :
  let iframe := new_node (document w) in
  let text := Blankshield.script_text move_frame_url in
  let e := standard_click (anchor move_frame_url "_blank") in
  literal_safe move_frame_url = false ∧
  Script.parse text
  = Script.Program [Script.NullOwn "parent"; Script.NullOwn "top";
                    Script.NullOwn "frameElement"; Script.VarChildOpen "";
                    Script.MoveFrameToRoot; Script.ExprLiteral "";
                    Script.NullChildOpener] ∧
  ¬ in_tree iframe (document w) ∧
  ∃ w',
    Blankshield.iframeOpen move_frame_url w = (Throw NotFoundError, w') ∧
    dom_steps w'
    = (dom_steps w ++ [FrameCreated iframe; DisplaySet iframe "none";
                       AppendedToBody iframe; ScriptAppended iframe text;
                       MovedToRoot iframe])%list ∧
    in_tree iframe (document w') ∧
    (iframe ∈ root_children (document w')) ∧
    Blankshield.clickListener (Some e) w = (Throw NotFoundError, w') ∧
    cancellations (calls w') = cancellations (calls w).
Proof.
  intros iframe text e.
  split; [reflexivity|]. split; [reflexivity|].
  split; [subst iframe; apply new_node_out|].
  assert (Hopen : ∃ w',
    Blankshield.iframeOpen move_frame_url w = (Throw NotFoundError, w') ∧
    dom_steps w'
    = (dom_steps w ++ [FrameCreated iframe; DisplaySet iframe "none";
                       AppendedToBody iframe; ScriptAppended iframe text;
                       MovedToRoot iframe])%list ∧
    (iframe ∈ root_children (document w')) ∧
    cancellations (calls w') = cancellations (calls w)).
  { unfold Blankshield.iframeOpen.
    change (createElement_iframe w) with (iframe, step (FrameCreated iframe) w).
    cbv beta iota zeta. unfold set_display.
    set (w2 := appendChild iframe _).
    assert (Hin : iframe ∈ body (document w2)) by (subst w2; auto with tree).
    unfold contentDocument. rewrite decide_True by (by left). cbn [or_else].
    unfold appendScript, run_in_frame. fold text.
    cbn [popups_allowed record step]. subst text. rewrite move_frame_run.
    unfold removeChild.
    change (popups_allowed w2) with (popups_allowed w).
    destruct (popups_allowed w); cbv beta iota;
      (rewrite decide_False by (cbn; auto with tree));
      (eexists; split; [reflexivity|]);
      (split; [cbn; by rewrite <- !app_assoc|]);
      (split; [cbn; apply elem_of_app; right; by apply list_elem_of_singleton|]);
      cbn; unfold cancellations; rewrite !List.filter_app, !length_app; cbn; lia. }
  destruct Hopen as (w' & Hopen & Hsteps & Hroot & Hcancel).
  exists w'. split; [done|]. split; [done|]. split; [by right|].
  split; [done|]. split; [|done].
  unfold Blankshield.clickListener. cbn [or_else ev_target e standard_click].
  change (getAttribute (anchor move_frame_url "_blank") "href") with (Some move_frame_url).
  change (String.eqb move_frame_url "") with false. cbv beta iota.
  change (getAttribute (anchor move_frame_url "_blank") "target") with (Some "_blank").
  rewrite bool_decide_eq_true_2 by done. cbn [ctrlKey shiftKey metaKey orb negb andb].
  by rewrite Hopen.
Qed.

(** The frame [iframeOpen] creates is hidden while it is in the tree: for a
    url without double quote, backslash, line feed or carriage return, in
    every state the call goes through in which the frame is a child of
    [body], its [style.display] is ["none"].  The frame did not exist
    before; after the call it holds exactly one script, the text built for
    the url, and every other frame is as it was. *)
Theorem iframeOpen_frame_hidden (url : string) (w : World) :
  literal_safe url = true →
  let iframe := new_node (document w) in
  let steps := iframeOpen_steps iframe url in
  frames (document w) !! iframe = None ∧
  ∃ w',
    Blankshield.iframeOpen url w = (Normal tt, w') ∧
    dom_steps w' = (dom_steps w ++ steps)%list ∧
    document w' = replay steps (document w) ∧
    (∀ k, iframe ∈ body (replay (take k steps) (document w)) →
          style_display <$> frames (replay (take k steps) (document w)) !! iframe
          = Some (Some "none")) ∧
    frames (document w') !! iframe
    = Some {| style_display := Some "none";
              frame_scripts := [Blankshield.script_text url] |} ∧
    ∀ m, m ≠ iframe → frames (document w') !! m = frames (document w) !! m.
Proof.
  intros Hsafe iframe steps.
  assert (Hb : iframe ∉ body (document w)) by (subst iframe; auto with tree).
  split; [apply new_node_no_frame|].
  destruct (iframeOpen_effects url w Hsafe)
    as (w' & Hopen & _ & Hsteps & Hdoc & _).
  exists w'. split; [done|]. split; [done|]. split; [done|].
  split; [|split].
  - intros [|[|[|[|[|k]]]]]; cbn; intros Hin.
    + by destruct Hb.
    + by destruct Hb.
    + by destruct Hb.
    + by rewrite lookup_alter_eq, lookup_insert_eq.
    + by rewrite !lookup_alter_eq, lookup_insert_eq.
    + rewrite take_nil in Hin. cbn in Hin.
      exfalso. by apply filter_other_absent in Hin.
  - rewrite Hdoc. cbn. by rewrite !lookup_alter_eq, lookup_insert_eq.
  - intros m Hm. rewrite Hdoc. cbn.
    rewrite !lookup_alter_ne by done. by rewrite lookup_insert_ne.
Qed.

Lemma iframeOpen_frame_hidden_witness :
  let w := empty_page true in
  let iframe := new_node (document w) in
  let steps := iframeOpen_steps iframe "http://example.com/" in
  frames (document w) !! iframe = None ∧
  ∃ w',
    Blankshield.iframeOpen "http://example.com/" w = (Normal tt, w') ∧
    dom_steps w' = (dom_steps w ++ steps)%list ∧
    document w' = replay steps (document w) ∧
    (∀ k, iframe ∈ body (replay (take k steps) (document w)) →
          style_display <$> frames (replay (take k steps) (document w)) !! iframe
          = Some (Some "none")) ∧
    frames (document w') !! iframe
    = Some {| style_display := Some "none";
              frame_scripts := [Blankshield.script_text "http://example.com/"] |} ∧
    ∀ m, m ≠ iframe → frames (document w') !! m = frames (document w) !! m.
Proof.
  exact (iframeOpen_frame_hidden "http://example.com/" (empty_page true) eq_refl).
Defined.

(** ** The host calls of [iframeOpen] *)

(** For a url as above and with popups allowed, the host calls of one
    [iframeOpen(url)] are: the injection, the three self-references nulled,
    the window opened with the url, and the opener of the new window nulled,
    all inside the transient frame. *)
Theorem iframeOpen_opens_and_disowns (url : string) (w : World) :
  literal_safe url = true →
  popups_allowed w = true →
  ∃ w', Blankshield.iframeOpen url w = (Normal tt, w') ∧
        calls w'
        = (calls w ++
           [ScriptInjected (new_node (document w)) (Blankshield.script_text url);
            FrameRan (new_node (document w)) (Script.ClearOwn "parent");
            FrameRan (new_node (document w)) (Script.ClearOwn "top");
            FrameRan (new_node (document w)) (Script.ClearOwn "frameElement");
            FrameRan (new_node (document w)) (Script.Open url);
            FrameRan (new_node (document w)) (Script.ClearOpener)])%list.
Proof.
  intros Hsafe Hpop.
  destruct (iframeOpen_effects url w Hsafe) as (w' & Hopen & Hcalls & _).
  exists w'. split; [done|]. by rewrite Hcalls, Hpop.
Qed.

Lemma iframeOpen_opens_and_disowns_witness :
  ∃ w', Blankshield.iframeOpen "http://example.com/" (empty_page true) = (Normal tt, w') ∧
        calls w'
        = [ScriptInjected (new_node (document (empty_page true)))
                          (Blankshield.script_text "http://example.com/");
           FrameRan (new_node (document (empty_page true))) (Script.ClearOwn "parent");
           FrameRan (new_node (document (empty_page true))) (Script.ClearOwn "top");
           FrameRan (new_node (document (empty_page true))) (Script.ClearOwn "frameElement");
           FrameRan (new_node (document (empty_page true))) (Script.Open "http://example.com/");
           FrameRan (new_node (document (empty_page true))) (Script.ClearOpener)].
Proof.
  exact (iframeOpen_opens_and_disowns "http://example.com/" (empty_page true)
           eq_refl eq_refl).
Defined.

(** With popups blocked ([window.open] returns [null]) and a url without
    double quote, backslash, line feed or carriage return, [iframeOpen(url)]
    still returns normally: the script nulls its three self-references,
    calls [window.open(url)], and its TypeError on the null handle is raised
    inside the frame, after which the frame is removed as usual. *)
Theorem iframeOpen_popup_blocked (url : string) (w : World) :
  literal_safe url = true →
  popups_allowed w = false →
  ∃ w', Blankshield.iframeOpen url w = (Normal tt, w') ∧
        calls w'
        = (calls w ++
           [ScriptInjected (new_node (document w)) (Blankshield.script_text url);
            FrameRan (new_node (document w)) (Script.ClearOwn "parent");
            FrameRan (new_node (document w)) (Script.ClearOwn "top");
            FrameRan (new_node (document w)) (Script.ClearOwn "frameElement");
            FrameRan (new_node (document w)) (Script.Open url);
            FrameThrew (new_node (document w)) TypeError])%list ∧
        body (document w') = body (document w).
Proof.
  intros Hsafe Hpop.
  destruct (iframeOpen_effects url w Hsafe) as (w' & Hopen & Hcalls & _ & _ & Hbody & _).
  exists w'. split; [done|]. split; [|done]. by rewrite Hcalls, Hpop.
Qed.

Lemma iframeOpen_popup_blocked_witness :
  ∃ w', Blankshield.iframeOpen "http://example.com/" (empty_page false) = (Normal tt, w') ∧
        calls w'
        = [ScriptInjected (new_node (document (empty_page false)))
                          (Blankshield.script_text "http://example.com/");
           FrameRan (new_node (document (empty_page false))) (Script.ClearOwn "parent");
           FrameRan (new_node (document (empty_page false))) (Script.ClearOwn "top");
           FrameRan (new_node (document (empty_page false))) (Script.ClearOwn "frameElement");
           FrameRan (new_node (document (empty_page false))) (Script.Open "http://example.com/");
           FrameThrew (new_node (document (empty_page false))) TypeError] ∧
        body (document w') = [].
Proof.
  exact (iframeOpen_popup_blocked "http://example.com/" (empty_page false)
           eq_refl eq_refl).
Defined.
(** ** The decision of the click handlers *)

Section Decision.

Variables (e : Event) (el : Element).

Lemma qualifying_guard (href : string) :
  qualifying e el href → no_new_tab e el = false.
Proof.
  unfold no_new_tab. intros (_ & _ & [Ht | [Hc | [Hs | Hm]]]).
  - rewrite bool_decide_eq_true_2 by done. apply andb_false_r.
  - by rewrite Hc.
  - rewrite Hs. by rewrite orb_true_r.
  - rewrite Hm. by rewrite !orb_true_r.
Qed.

Lemma guard_qualifying (href : string) :
  getAttribute el "href" = Some href →
  String.eqb href "" = false →
  no_new_tab e el = false →
  qualifying e el href.
Proof.
  unfold no_new_tab. intros Hh Hne Hg. split; [done|]. split.
  { by apply String.eqb_neq. }
  apply andb_false_iff in Hg as [Hg | Hg].
  - apply negb_false_iff in Hg. right.
    destruct (ctrlKey e); [by left|]. destruct (shiftKey e); [right; by left|].
    right; right. done.
  - apply negb_false_iff, bool_decide_eq_true_1 in Hg. by left.
Qed.

Lemma clickListener_qualifying (href : string) (w : World) :
  or_else (ev_target e) (ev_srcElement e) = Some el →
  qualifying e el href →
  literal_safe href = true →
  ∃ w1, Blankshield.iframeOpen href w = (Normal tt, w1) ∧
        Blankshield.clickListener (Some e) w
        = (Normal RFalse, record (if has_preventDefault e then PreventDefault
                                  else ReturnValueFalse) w1).
Proof.
  intros Hel Hq Hsafe.
  destruct (iframeOpen_effects href w Hsafe) as (w1 & Hopen & _).
  exists w1. split; [done|].
  unfold Blankshield.clickListener. cbn [or_else]. rewrite Hel.
  pose proof (qualifying_guard href Hq) as Hg. unfold no_new_tab in Hg.
  destruct Hq as (Hh & Hne & Hd). rewrite Hh.
  apply String.eqb_neq in Hne. rewrite Hne, Hg, Hopen.
  by destruct (has_preventDefault e).
Qed.

Lemma clickListener_not_qualifying (w : World) :
  or_else (ev_target e) (ev_srcElement e) = Some el →
  (∀ href, ¬ qualifying e el href) →
  Blankshield.clickListener (Some e) w = (Normal RUndefined, w).
Proof.
  intros Hel Hnq.
  unfold Blankshield.clickListener. cbn [or_else]. rewrite Hel.
  destruct (getAttribute el "href") as [href|] eqn:Hh; [|done].
  destruct (String.eqb href "") eqn:Hne; [done|].
  destruct (negb _ && negb _) eqn:Hg; [done|].
  exfalso. apply (Hnq href). by apply guard_qualifying.
Qed.

Lemma handler_qualifying (href : string) (w : World) :
  ev_target e = Some el →
  qualifying e el href →
  Direct.handler (Some e) w
  = if popups_allowed w then
      if has_preventDefault e
      then (Normal RUndefined,
            record PreventDefault (record OpenerCleared (record (WindowOpen href) w)))
      else (Throw TypeError, record OpenerCleared (record (WindowOpen href) w))
    else (Throw TypeError, record (WindowOpen href) w).
Proof.
  intros Hel Hq. unfold Direct.handler. rewrite Hel.
  pose proof (qualifying_guard href Hq) as Hg. unfold no_new_tab in Hg.
  destruct Hq as (Hh & Hne & _). rewrite Hh.
  apply String.eqb_neq in Hne. rewrite Hne, Hg.
  reflexivity.
Qed.

Lemma handler_not_qualifying (w : World) :
  ev_target e = Some el →
  (∀ href, ¬ qualifying e el href) →
  Direct.handler (Some e) w = (Normal RUndefined, w).
Proof.
  intros Hel Hnq. unfold Direct.handler. rewrite Hel.
  destruct (getAttribute el "href") as [href|] eqn:Hh; [|done].
  destruct (String.eqb href "") eqn:Hne; [done|].
  destruct (negb _ && negb _) eqn:Hg; [done|].
  exfalso. apply (Hnq href). by apply guard_qualifying.
Qed.

End Decision.

(** [clickListener] of src/blankshield.js decides as the spec's Decision
    Logic: on a qualifying click whose href has no double quote, backslash,
    line feed or carriage return it returns [false], cancels exactly once
    and injects exactly one script, the one for that href; on a click that
    does not qualify it returns [undefined] and makes no host call.  (An
    href with one of those characters puts text of its own into the
    script, and the call can end otherwise.) *)
Theorem clickListener_decision (e : Event) (el : Element) (w : World) :
  or_else (ev_target e) (ev_srcElement e) = Some el →
  (∀ href, qualifying e el href → literal_safe href = true →
     ∃ w', Blankshield.clickListener (Some e) w = (Normal RFalse, w') ∧
           cancellations (calls w') = S (cancellations (calls w)) ∧
           injections href (calls w') = S (injections href (calls w)) ∧
           length (List.filter is_injection (calls w'))
           = S (length (List.filter is_injection (calls w))))
  ∧ ((∀ href, ¬ qualifying e el href) →
     Blankshield.clickListener (Some e) w = (Normal RUndefined, w)).
Proof.
  intros Hel. split; [|by apply clickListener_not_qualifying].
  intros href Hq Hsafe.
  destruct (clickListener_qualifying e el href w Hel Hq Hsafe) as (w1 & Hopen & Hclick).
  destruct (iframeOpen_effects href w Hsafe) as (w1' & Hopen' & Hcalls & _).
  set (cs := script_calls _ _ _) in Hcalls.
  assert (Hcs : forallb is_frame_call cs = true) by apply script_calls_frame.
  rewrite Hopen in Hopen'. injection Hopen' as <-.
  eexists. split; [exact Hclick|].
  assert (Hlog : calls (record (if has_preventDefault e then PreventDefault
                                else ReturnValueFalse) w1)
                 = (calls w ++ [ScriptInjected (new_node (document w))
                                               (Blankshield.script_text href)]
                    ++ cs ++ [if has_preventDefault e then PreventDefault
                              else ReturnValueFalse])%list).
  { cbn [calls record]. rewrite Hcalls. by rewrite <- app_assoc. }
  rewrite Hlog. clear Hlog.
  split; [|split].
  - rewrite !cancellations_app. unfold cancellations at 2 3 4.
    rewrite (filter_frame_calls is_cancel cs) by (done || by intros []).
    destruct (has_preventDefault e); cbn; lia.
  - rewrite !injections_app. unfold injections at 2 3 4.
    rewrite (filter_frame_calls _ cs) by (done || by intros []).
    cbn [List.filter is_injection_of]. rewrite String.eqb_refl.
    destruct (has_preventDefault e); cbn; lia.
  - rewrite !List.filter_app, !length_app.
    rewrite (filter_frame_calls is_injection cs) by (done || by intros []).
    destruct (has_preventDefault e); cbn; lia.
Qed.

Lemma clickListener_decision_witness :
  let el := anchor "http://example.com/" "_blank" in
  ∃ w', Blankshield.clickListener (Some (legacy_click el)) (empty_page true)
        = (Normal RFalse, w') ∧
        cancellations (calls w') = 1 ∧
        injections "http://example.com/" (calls w') = 1 ∧
        length (List.filter is_injection (calls w')) = 1.
Proof.
  intros el.
  refine (proj1 (clickListener_decision (legacy_click el) el (empty_page true) eq_refl)
            "http://example.com/" _ eq_refl).
  solve_qualifying.
Defined.

(** On a qualifying click whose href has no double quote, backslash, line
    feed or carriage return, [clickListener] cancels through
    [preventDefault] when the event has it and through [returnValue = false]
    otherwise, after [iframeOpen] has returned, and its own return value is
    [false]. *)
Theorem clickListener_cancels_with_fallback
    (e : Event) (el : Element) (href : string) (w : World) :
  or_else (ev_target e) (ev_srcElement e) = Some el →
  qualifying e el href →
  literal_safe href = true →
  ∃ w1, Blankshield.iframeOpen href w = (Normal tt, w1) ∧
        Blankshield.clickListener (Some e) w
        = (Normal RFalse,
           record (if has_preventDefault e then PreventDefault else ReturnValueFalse) w1)
        ∧ to_boolean RFalse = false.
Proof.
  intros Hel Hq Hsafe.
  destruct (clickListener_qualifying e el href w Hel Hq Hsafe) as (w1 & H1 & H2).
  exists w1. done.
Qed.

Lemma clickListener_cancels_with_fallback_witness :
  let el := anchor "http://example.com/" "_self" in
  let e := {| ev_target := None; ev_srcElement := Some el; ev_currentTarget := None;
              ctrlKey := false; shiftKey := true; metaKey := false;
              has_preventDefault := false |} in
  ∃ w1, Blankshield.iframeOpen "http://example.com/" (empty_page false) = (Normal tt, w1) ∧
        Blankshield.clickListener (Some e) (empty_page false)
        = (Normal RFalse, record ReturnValueFalse w1)
        ∧ to_boolean RFalse = false.
Proof.
  intros el e.
  refine (clickListener_cancels_with_fallback e el "http://example.com/"
            (empty_page false) eq_refl _ eq_refl).
  solve_qualifying.
Defined.

(** The direct variant's [handler] decides the same way when the event is a
    standard one and [window.open] returns a handle: on a qualifying click it
    opens the href, nulls the opener of the new window and calls
    [preventDefault], in this order and nothing else; on any other click it
    makes no host call. *)
Theorem handler_decision (e : Event) (el : Element) (w : World) :
  ev_target e = Some el →
  (∀ href, qualifying e el href →
     popups_allowed w = true → has_preventDefault e = true →
     Direct.handler (Some e) w
     = (Normal RUndefined,
        record_all [WindowOpen href; OpenerCleared; PreventDefault] w))
  ∧ ((∀ href, ¬ qualifying e el href) →
     Direct.handler (Some e) w = (Normal RUndefined, w)).
Proof.
  intros Hel. split; [|by apply handler_not_qualifying].
  intros href Hq Hp Hd. rewrite (handler_qualifying e el href w Hel Hq).
  cbn [popups_allowed record]. rewrite Hp, Hd.
  unfold record, record_all. cbn. by rewrite <- !app_assoc.
Qed.

Lemma handler_decision_witness :
  let el := anchor "http://example.com/" "" in
  let e := {| ev_target := Some el; ev_srcElement := None; ev_currentTarget := Some el;
              ctrlKey := false; shiftKey := false; metaKey := true;
              has_preventDefault := true |} in
  Direct.handler (Some e) (empty_page true)
  = (Normal RUndefined,
     record_all [WindowOpen "http://example.com/"; OpenerCleared; PreventDefault]
                (empty_page true)).
Proof.
  intros el e.
  refine (proj1 (handler_decision e el (empty_page true) eq_refl)
            "http://example.com/" _ eq_refl eq_refl).
  solve_qualifying.
Defined.

(** C2: in the direct variant, on every qualifying click for which
    [window.open] returns [null], the handler has called [window.open] with
    the href and then completes abruptly with a TypeError, raised by
    [child.opener = null] on the null handle; [e.preventDefault()] is not
    reached. *)
Theorem handler_null_handle_throws
    (e : Event) (el : Element) (href : string) (w : World) :
  ev_target e = Some el →
  qualifying e el href →
  popups_allowed w = false →
  Direct.handler (Some e) w = (Throw TypeError, record (WindowOpen href) w).
Proof.
  intros Hel Hq Hp. rewrite (handler_qualifying e el href w Hel Hq).
  cbn [popups_allowed record]. by rewrite Hp.
Qed.

Lemma handler_null_handle_throws_witness :
  Direct.handler (Some (standard_click (anchor "http://example.com/" "_blank")))
                 (empty_page false)
  = (Throw TypeError, record (WindowOpen "http://example.com/") (empty_page false)).
Proof.
  refine (handler_null_handle_throws
            (standard_click (anchor "http://example.com/" "_blank"))
            (anchor "http://example.com/" "_blank") "http://example.com/"
            (empty_page false) eq_refl _ eq_refl).
  solve_qualifying.
Defined.

(** C1: a qualifying click (standard event, [href] set, [target="_blank"])
    handled by the direct variant's handler while popups are blocked: the
    isolation is started once ([window.open] with the href), the handler
    throws, and default navigation is cancelled zero times.  On the same
    click in the same page [clickListener] of src/blankshield.js returns
    [false] and cancels once. *)
Theorem handler_blocked_popup_never_cancels :
  let el := anchor "http://example.com/" "_blank" in
  let e := standard_click el in
  qualifying e el "http://example.com/" ∧
  (∃ w', Direct.handler (Some e) (empty_page false) = (Throw TypeError, w') ∧
         calls w' = [WindowOpen "http://example.com/"] ∧
         length (List.filter is_window_open (calls w')) = 1 ∧
         cancellations (calls w') = 0) ∧
  (∃ w', Blankshield.clickListener (Some e) (empty_page false) = (Normal RFalse, w') ∧
         injections "http://example.com/" (calls w') = 1 ∧
         cancellations (calls w') = 1).
Proof.
  intros el e. split; [solve_qualifying|]. split.
  - eexists. split; [reflexivity|]. cbn. done.
  - eexists. split; [vm_compute; reflexivity|]. split; vm_compute; reflexivity.
Qed.

(** C9: the direct variant's handler has no fallback.  On the event object
    a legacy host passes to [attachEvent] listeners (no [target], no
    [preventDefault]) it throws at once; on an event that has [target] but
    no [preventDefault] it opens the window and throws at
    [e.preventDefault()].  Neither click is cancelled, and no return value is
    produced.  [clickListener] of src/blankshield.js cancels both through
    [returnValue = false] and returns [false]. *)
Theorem handler_has_no_cancel_fallback :
  let el := anchor "http://example.com/" "_blank" in
  let legacy := legacy_click el in
  let no_method := {| ev_target := Some el; ev_srcElement := None;
                      ev_currentTarget := Some el;
                      ctrlKey := false; shiftKey := false; metaKey := false;
                      has_preventDefault := false |} in
  Direct.handler (Some legacy) (empty_page true) = (Throw TypeError, empty_page true) ∧
  (∃ w', Direct.handler (Some no_method) (empty_page true) = (Throw TypeError, w') ∧
         calls w' = [WindowOpen "http://example.com/"; OpenerCleared] ∧
         cancellations (calls w') = 0) ∧
  (∃ w', Blankshield.clickListener (Some legacy) (empty_page true) = (Normal RFalse, w') ∧
         List.filter is_cancel (calls w') = [ReturnValueFalse]) ∧
  (∃ w', Blankshield.clickListener (Some no_method) (empty_page true) = (Normal RFalse, w') ∧
         List.filter is_cancel (calls w') = [ReturnValueFalse]).
Proof.
  intros el legacy no_method.
  split; [reflexivity|].
  split; [eexists; split; [reflexivity|by cbn]|].
  split; (eexists; split; [vm_compute; reflexivity|vm_compute; reflexivity]).
Qed.

(** C10: when the click landed on an element [d] that has no [href]
    attribute, both click handlers return without any host call, whatever
    the element the listener was registered on ([ev_currentTarget], for
    instance an anchor with [href] and [target="_blank"]); and the outcome
    of either handler never depends on that element.  [clickListener] finds
    [d] through [e.target] or else [e.srcElement], [handler] through
    [e.target]. *)
Theorem handlers_read_event_target (e : Event) (d : Element) (w : World) :
  getAttribute d "href" = None →
  (or_else (ev_target e) (ev_srcElement e) = Some d →
   ∀ a, Blankshield.clickListener (Some (set_currentTarget a e)) w = (Normal RUndefined, w))
  ∧ (ev_target e = Some d →
     ∀ a, Direct.handler (Some (set_currentTarget a e)) w = (Normal RUndefined, w))
  ∧ (∀ a e' w', Blankshield.clickListener (Some (set_currentTarget a e')) w'
                 = Blankshield.clickListener (Some e') w'
                ∧ Direct.handler (Some (set_currentTarget a e')) w'
                 = Direct.handler (Some e') w').
Proof.
  intros Hh. split; [|split].
  - intros Ht a. unfold Blankshield.clickListener.
    cbn [or_else set_currentTarget ev_target ev_srcElement].
    rewrite Ht. by rewrite Hh.
  - intros Ht a. unfold Direct.handler.
    cbn [set_currentTarget ev_target]. rewrite Ht. by rewrite Hh.
  - intros a e' w'. split; reflexivity.
Qed.

Lemma handlers_read_event_target_witness :
  let e := {| ev_target := Some plain_span; ev_srcElement := None;
              ev_currentTarget := None;
              ctrlKey := false; shiftKey := false; metaKey := false;
              has_preventDefault := true |} in
  let a := Some (anchor "http://example.com/" "_blank") in
  Blankshield.clickListener (Some (set_currentTarget a e)) (empty_page true)
  = (Normal RUndefined, empty_page true)
  ∧ Direct.handler (Some (set_currentTarget a e)) (empty_page true)
  = (Normal RUndefined, empty_page true).
Proof.
  intros e a.
  pose proof (handlers_read_event_target e plain_span (empty_page true) eq_refl)
    as (Hclick & Hhandler & _).
  exact (conj (Hclick eq_refl a) (Hhandler eq_refl a)).
Defined.


(** ** What a click handler leaves behind *)

Lemma clickListener_arg (arg : option Event) (e : Event) (w : World) :
  or_else arg (window_event w) = Some e →
  Blankshield.clickListener arg w = Blankshield.clickListener (Some e) w.
Proof. intros H. unfold Blankshield.clickListener. by rewrite H. Qed.

(** A qualifying click through [clickListener], the href staying inside
    its literal: what is added to the log and what stays. *)
Lemma clickListener_isolates
    (arg : option Event) (e : Event) (el : Element) (href : string) (w : World) :
  or_else arg (window_event w) = Some e →
  or_else (ev_target e) (ev_srcElement e) = Some el →
  qualifying e el href →
  literal_safe href = true →
  ∃ w' cs,
    Blankshield.clickListener arg w = (Normal RFalse, w')
    ∧ calls w' = (calls w ++ cs)%list
    ∧ cancellations cs = 1
    ∧ injections href cs = 1
    ∧ length (List.filter is_injection cs) = 1
    ∧ body (document w') = body (document w)
    ∧ root_children (document w') = root_children (document w)
    ∧ window_event w' = window_event w
    ∧ popups_allowed w' = popups_allowed w.
Proof.
  intros Harg Hel Hq Hsafe. rewrite (clickListener_arg arg e w Harg).
  destruct (clickListener_qualifying e el href w Hel Hq Hsafe) as (w1 & Hopen & ->).
  destruct (iframeOpen_effects href w Hsafe)
    as (w1' & Hopen' & Hcalls & _ & _ & Hb & Hr & He & Hp).
  set (cs := script_calls _ _ _) in Hcalls.
  assert (Hcs : forallb is_frame_call cs = true) by apply script_calls_frame.
  rewrite Hopen in Hopen'. injection Hopen' as <-.
  eexists. exists (ScriptInjected (new_node (document w)) (Blankshield.script_text href)
                   :: cs ++ [if has_preventDefault e then PreventDefault
                             else ReturnValueFalse])%list.
  split; [done|]. split.
  { destruct (has_preventDefault e); cbn [calls record]; rewrite Hcalls;
      by rewrite <- app_assoc. }
  split; [|split; [|split]].
  - unfold cancellations. cbn [List.filter is_cancel].
    rewrite List.filter_app, (filter_frame_calls is_cancel cs) by (done || by intros []).
    by destruct (has_preventDefault e).
  - unfold injections. cbn [List.filter is_injection_of]. rewrite String.eqb_refl.
    rewrite List.filter_app, (filter_frame_calls _ cs) by (done || by intros []).
    by destruct (has_preventDefault e).
  - cbn [List.filter is_injection].
    rewrite List.filter_app, (filter_frame_calls is_injection cs) by (done || by intros []).
    by destruct (has_preventDefault e).
  - by destruct (has_preventDefault e).
Qed.

(** [clickListener] is all or nothing, for every argument and every state
    of the page in which the href of the clicked element, if it has one, has
    no double quote, backslash, line feed or carriage return: either it
    returns [false], having injected exactly one script and cancelled
    exactly once, or it made no host call at all, left the state as it was,
    and returned [undefined] or threw a TypeError.  In both cases the
    children of [document.body] and of the document element, the global
    event and the popup policy are as before. *)
Theorem clickListener_all_or_nothing (arg : option Event) (w : World) :
  (∀ e el href,
     or_else arg (window_event w) = Some e →
     or_else (ev_target e) (ev_srcElement e) = Some el →
     getAttribute el "href" = Some href →
     literal_safe href = true) →
  ∃ c w' cs,
    Blankshield.clickListener arg w = (c, w')
    ∧ calls w' = (calls w ++ cs)%list
    ∧ body (document w') = body (document w)
    ∧ root_children (document w') = root_children (document w)
    ∧ window_event w' = window_event w
    ∧ popups_allowed w' = popups_allowed w
    ∧ ((c = Normal RFalse ∧ cancellations cs = 1
        ∧ length (List.filter is_injection cs) = 1)
       ∨ ((c = Normal RUndefined ∨ c = Throw TypeError) ∧ cs = [] ∧ w' = w)).
Proof.
  intros Hsafe.
  assert (Hnothing : ∀ c, (c = Normal RUndefined ∨ c = Throw TypeError) →
            Blankshield.clickListener arg w = (c, w) →
            ∃ c w' cs,
              Blankshield.clickListener arg w = (c, w')
              ∧ calls w' = (calls w ++ cs)%list
              ∧ body (document w') = body (document w)
              ∧ root_children (document w') = root_children (document w)
              ∧ window_event w' = window_event w
              ∧ popups_allowed w' = popups_allowed w
              ∧ ((c = Normal RFalse ∧ cancellations cs = 1
                  ∧ length (List.filter is_injection cs) = 1)
                 ∨ ((c = Normal RUndefined ∨ c = Throw TypeError)
                    ∧ cs = [] ∧ w' = w))).
  { intros c Hc Heq. exists c, w, []. rewrite app_nil_r. repeat split; try done.
    by right. }
  destruct (or_else arg (window_event w)) as [e|] eqn:Harg.
  2: { apply (Hnothing (Throw TypeError)); [by right|].
       unfold Blankshield.clickListener. by rewrite Harg. }
  destruct (or_else (ev_target e) (ev_srcElement e)) as [el|] eqn:Hel.
  2: { apply (Hnothing (Throw TypeError)); [by right|].
       unfold Blankshield.clickListener. by rewrite Harg, Hel. }
  destruct (getAttribute el "href") as [href|] eqn:Hh.
  2: { apply (Hnothing (Normal RUndefined)); [by left|].
       unfold Blankshield.clickListener. by rewrite Harg, Hel, Hh. }
  destruct (String.eqb href "") eqn:Hne.
  { apply (Hnothing (Normal RUndefined)); [by left|].
    unfold Blankshield.clickListener. by rewrite Harg, Hel, Hh, Hne. }
  destruct (no_new_tab e el) eqn:Hg.
  { apply (Hnothing (Normal RUndefined)); [by left|].
    unfold Blankshield.clickListener. rewrite Harg, Hel, Hh, Hne.
    unfold no_new_tab in Hg. by rewrite Hg. }
  destruct (clickListener_isolates arg e el href w Harg Hel)
    as (w' & cs & Hrun & Hcalls & Hc & _ & Hi & Hb & Hr & He & Hp).
  { by apply guard_qualifying. }
  { by apply (Hsafe e el href). }
  exists (Normal RFalse), w', cs. repeat split; try done. by left.
Qed.

Lemma clickListener_all_or_nothing_witness :
  let e := standard_click (anchor "http://example.com/" "_blank") in
  let w := empty_page false in
  ∃ c w' cs,
    Blankshield.clickListener (Some e) w = (c, w')
    ∧ calls w' = (calls w ++ cs)%list
    ∧ body (document w') = body (document w)
    ∧ root_children (document w') = root_children (document w)
    ∧ window_event w' = window_event w
    ∧ popups_allowed w' = popups_allowed w
    ∧ ((c = Normal RFalse ∧ cancellations cs = 1
        ∧ length (List.filter is_injection cs) = 1)
       ∨ ((c = Normal RUndefined ∨ c = Throw TypeError) ∧ cs = [] ∧ w' = w)).
Proof.
  intros e w.
  apply (clickListener_all_or_nothing (Some e) w).
  intros e' el href He Hel Hh.
  injection He as <-. injection Hel as <-. injection Hh as <-. reflexivity.
Defined.

(** The direct variant's [handler], on every argument and in every state
    of the page, makes one of four runs of host calls and changes nothing
    else: none; [window.open] alone and then a TypeError (no handle);
    [window.open], the opener nulled, and then a TypeError (no
    [preventDefault]); or these two followed by [preventDefault], returning
    [undefined].  So [preventDefault] is never called before the window was
    opened and disowned, and [false] is never returned. *)
Theorem handler_runs (arg : option Event) (w : World) :
  ∃ c cs,
    Direct.handler arg w = (c, record_all cs w)
    ∧ c ≠ Normal RFalse
    ∧ (cs = []
       ∨ (∃ href, cs = [WindowOpen href] ∧ c = Throw TypeError
                  ∧ popups_allowed w = false)
       ∨ (∃ href, cs = [WindowOpen href; OpenerCleared] ∧ c = Throw TypeError
                  ∧ popups_allowed w = true)
       ∨ (∃ href, cs = [WindowOpen href; OpenerCleared; PreventDefault]
                  ∧ c = Normal RUndefined ∧ popups_allowed w = true)).
Proof.
  assert (Hw : record_all [] w = w).
  { destruct w. unfold record_all. cbn. by rewrite app_nil_r. }
  unfold Direct.handler.
  destruct arg as [e|]; [|exists (Throw TypeError), []; by rewrite Hw; auto].
  destruct (ev_target e) as [el|]; [|exists (Throw TypeError), []; by rewrite Hw; auto].
  destruct (getAttribute el "href") as [href|];
    [|exists (Normal RUndefined), []; by rewrite Hw; auto].
  destruct (String.eqb href ""); [exists (Normal RUndefined), []; by rewrite Hw; auto|].
  destruct (negb _ && negb _); [exists (Normal RUndefined), []; by rewrite Hw; auto|].
  cbn [popups_allowed record].
  destruct (popups_allowed w) eqn:Hp.
  - destruct (has_preventDefault e).
    + exists (Normal RUndefined), [WindowOpen href; OpenerCleared; PreventDefault].
      split; [|split; [done|]].
      * unfold record, record_all. cbn. by rewrite <- !app_assoc.
      * right; right; right. by exists href.
    + exists (Throw TypeError), [WindowOpen href; OpenerCleared].
      split; [|split; [done|]].
      * unfold record, record_all. cbn. by rewrite <- !app_assoc.
      * right; right; left. by exists href.
  - exists (Throw TypeError), [WindowOpen href]. split; [done|]. split; [done|].
    right; left. by exists href.
Qed.


(** ** Registration *)

(** C7: for every primitive string and every String object, [blankshield]
    (in both source files) returns normally and leaves every object of the
    heap as it was: nothing is registered, and the loop over the indices of
    the string is never entered. *)
Theorem attach_string_registers_nothing (s : string) (h : gmap nat Obj) :
  Blankshield.blankshield (PrimString s) h = (Normal tt, h) ∧
  Blankshield.blankshield (StringObject s) h = (Normal tt, h) ∧
  Direct.blankshield (PrimString s) h = (Normal tt, h) ∧
  Direct.blankshield (StringObject s) h = (Normal tt, h).
Proof. repeat split. Qed.

Lemma click_registrations_listeners (l f : Listener) (o : Obj) :
  click_registrations l (set_listeners (listeners o ++ [("click", f, false)]) o)
  = click_registrations l o + invokes l f.
Proof.
  unfold click_registrations. cbn [listeners attached props set_listeners].
  rewrite sum_list_with_app. cbn. lia.
Qed.

Lemma click_registrations_attached (l f : Listener) (o : Obj) :
  click_registrations l (set_attached (attached o ++ [("onclick", f)]) o)
  = click_registrations l o + invokes l f.
Proof.
  unfold click_registrations. cbn [listeners attached props set_attached].
  rewrite sum_list_with_app. cbn. lia.
Qed.

Lemma click_registrations_prop (l f : Listener) (o : Obj) :
  click_registrations l (set_prop "onclick" f o)
  = click_registrations l o + invokes l f
    - match props o !! "onclick" with Some g => invokes l g | None => 0 end.
Proof.
  unfold click_registrations. cbn [listeners attached props set_prop].
  rewrite lookup_insert_eq. destruct (props o !! "onclick"); lia.
Qed.

Lemma invokes_clickListener : invokes ClickListener ClickListener = 1.
Proof. reflexivity. Qed.

Lemma invokes_handler : invokes Handler Handler = 1.
Proof. reflexivity. Qed.

Lemma invokes_wrapper (l a b : Listener) :
  invokes l (Wrapper a b) = invokes l a + invokes l b.
Proof. reflexivity. Qed.

Lemma addEventListener_click (r : nat) (o : Obj) (h : gmap nat Obj) :
  h !! r = Some o →
  ∃ o', Blankshield.addEventListener r "click" ClickListener h = (Normal tt, <[r := o']> h)
        ∧ click_registrations ClickListener o' = S (click_registrations ClickListener o)
        ∧ items o' = items o.
Proof.
  intros Hr. unfold Blankshield.addEventListener. rewrite Hr.
  destruct (has_addEventListener o).
  { eexists. split; [done|]. split; [|done].
    rewrite click_registrations_listeners, invokes_clickListener. lia. }
  cbn zeta. change ("on" +:+ "click") with "onclick".
  destruct (has_attachEvent o).
  { eexists. split; [done|]. split; [|done].
    rewrite click_registrations_attached, invokes_clickListener. lia. }
  destruct (props o !! "onclick") as [prev|] eqn:Hp.
  - eexists. split; [done|]. split; [|done].
    rewrite click_registrations_prop, Hp, invokes_wrapper, invokes_clickListener. lia.
  - eexists. split; [done|]. split; [|done].
    rewrite click_registrations_prop, Hp, invokes_clickListener. lia.
Qed.

Lemma addEvent_click (r : nat) (o : Obj) (h : gmap nat Obj) :
  h !! r = Some o →
  ∃ o', Direct.addEvent r "click" Handler h = (Normal tt, <[r := o']> h)
        ∧ (has_addEventListener o || has_attachEvent o = true →
           click_registrations Handler o' = S (click_registrations Handler o))
        ∧ (has_addEventListener o || has_attachEvent o = false →
           o' = set_prop "onclick" Handler o).
Proof.
  intros Hr. unfold Direct.addEvent. rewrite Hr.
  change ("on" +:+ "click") with "onclick".
  destruct (has_addEventListener o).
  { eexists. split; [done|]. split; [|done]. intros _.
    rewrite click_registrations_listeners, invokes_handler. lia. }
  destruct (has_attachEvent o).
  { eexists. split; [done|]. split; [|done]. intros _.
    rewrite click_registrations_attached, invokes_handler. lia. }
  eexists. split; [done|]. split; done.
Qed.

(** C8 (amended): for every object whose [length] property is undefined,
    [blankshield] returns normally and changes that object only.  In
    src/blankshield.js the number of times a click on it reaches
    [clickListener] grows by exactly one.  In the direct variant the number
    of times it reaches [handler] grows by exactly one when the object has a
    registration method, and otherwise [handler] is assigned to its
    [onclick] property. *)
Theorem attach_single_element (h : gmap nat Obj) (r : nat) (o : Obj) :
  h !! r = Some o →
  length_prop o = LengthUndefined →
  (∃ o', Blankshield.blankshield (Object r) h = (Normal tt, <[r := o']> h)
         ∧ click_registrations ClickListener o' = S (click_registrations ClickListener o))
  ∧ (∃ o', Direct.blankshield (Object r) h = (Normal tt, <[r := o']> h)
           ∧ (has_addEventListener o || has_attachEvent o = true →
              click_registrations Handler o' = S (click_registrations Handler o))
           ∧ (has_addEventListener o || has_attachEvent o = false →
              o' = set_prop "onclick" Handler o)).
Proof.
  intros Hr Hlen.
  unfold Blankshield.blankshield, Direct.blankshield, get_length.
  rewrite Hr. cbn [fmap option_fmap option_map]. rewrite Hlen.
  split; [|by apply addEvent_click].
  destruct (addEventListener_click r o h Hr) as (o' & H1 & H2 & _). by exists o'.
Qed.

Lemma attach_single_element_witness :
  let o := bare_object LengthUndefined (Some (PageHandler 7)) in
  let h : gmap nat Obj := <[0 := o]> ∅ in
  (∃ o', Blankshield.blankshield (Object 0) h = (Normal tt, <[0 := o']> h)
         ∧ click_registrations ClickListener o' = S (click_registrations ClickListener o))
  ∧ (∃ o', Direct.blankshield (Object 0) h = (Normal tt, <[0 := o']> h)
           ∧ (has_addEventListener o || has_attachEvent o = true →
              click_registrations Handler o' = S (click_registrations Handler o))
           ∧ (has_addEventListener o || has_attachEvent o = false →
              o' = set_prop "onclick" Handler o)).
Proof.
  intros o h.
  exact (attach_single_element h 0 o eq_refl eq_refl).
Defined.

(** C8 as stated fails: an element whose [length] property holds a value
    that is not a number (here one that converts to NaN, such as the string
    "long") lacks a numeric length, yet [blankshield] takes the loop branch,
    the loop runs zero times, and nothing is registered on the element. *)
Lemma attach_nonnumeric_length_registers_nothing :
  let o := dom_object (LengthOther None) in
  let h : gmap nat Obj := <[0 := o]> ∅ in
  has_numeric_length o = false ∧
  click_registrations ClickListener o = 0 ∧
  click_registrations Handler o = 0 ∧
  Blankshield.blankshield (Object 0) h = (Normal tt, h) ∧
  Direct.blankshield (Object 0) h = (Normal tt, h).
Proof. repeat split. Qed.

(** The loop of [blankshield] over a collection [rs] held by the object
    [rt], from index [i] on. *)
Lemma attach_each_collection (rt : nat) (rs : list nat) :
  ∀ n i (h : gmap nat Obj),
    i + n = length rs →
    (∃ ot, h !! rt = Some ot ∧ items ot = rs) →
    Forall (fun r => is_Some (h !! r)) rs →
    ∃ h', Blankshield.attach_each (Object rt) n i h = (Normal tt, h')
          ∧ (∀ r o, h !! r = Some o →
               ∃ o', h' !! r = Some o'
                     ∧ click_registrations ClickListener o'
                       = click_registrations ClickListener o + occurrences r (drop i rs))
          ∧ (∀ r, h !! r = None → h' !! r = None).
Proof.
  induction n as [|n IH]; intros i h Hlen (ot & Hrt & Hitems) Hall.
  { exists h. split; [done|]. split; [|done].
    intros r o Hr. exists o. split; [done|]. rewrite drop_ge by lia. cbn. lia. }
  cbn [Blankshield.attach_each]. unfold get_item. rewrite Hrt, Hitems.
  destruct (rs !! i) as [el|] eqn:Hi.
  2: { apply lookup_ge_None in Hi. lia. }
  destruct (proj1 (Forall_forall _ _) Hall el) as [oel Hel].
  { by eapply list_elem_of_lookup_2. }
  destruct (addEventListener_click el oel h Hel) as (oel' & Hreg & Hcount & Hit).
  rewrite Hreg.
  destruct (IH (S i) (<[el := oel']> h)) as (h' & Hloop & Hcounts & Hnone).
  - lia.
  - destruct (decide (rt = el)) as [->|Hne].
    + exists oel'. rewrite lookup_insert_eq. split; [done|]. rewrite Hit. congruence.
    + exists ot. by rewrite lookup_insert_ne.
  - apply Forall_forall. intros r Hr.
    destruct (decide (el = r)) as [->|Hne].
    + rewrite lookup_insert_eq. by eexists.
    + rewrite lookup_insert_ne by done. by apply (proj1 (Forall_forall _ _) Hall).
  - exists h'. split; [done|]. split.
    + intros r o Hr. rewrite (drop_S _ _ _ Hi). cbn [occurrences].
      destruct (decide (el = r)) as [->|Hne].
      * rewrite Hel in Hr. injection Hr as <-.
        destruct (Hcounts r oel') as (o' & Ho' & Hc); [by rewrite lookup_insert_eq|].
        exists o'. split; [done|]. lia.
      * destruct (Hcounts r o) as (o' & Ho' & Hc); [by rewrite lookup_insert_ne|].
        exists o'. split; [done|]. lia.
    + intros r Hr. apply Hnone. rewrite lookup_insert_ne; [done|].
      intros ->. congruence.
Qed.

(** [blankshield] of src/blankshield.js on a collection: when [target.length]
    is the number of items of [target] and every item is an object, the call
    returns normally, and for every object of the heap the number of
    registrations of [clickListener] for a click made on it grows by the
    number of positions of the collection that hold it: one registration
    per position for the elements of the collection, none for every other
    object.  No object is created.  (What a target makes of a registration
    it is given twice is not part of this: an element of the DOM keeps one
    of them.) *)
Theorem attach_collection (h : gmap nat Obj) (rt : nat) (ot : Obj) :
  h !! rt = Some ot →
  length_prop ot = LengthNumber (Z.of_nat (length (items ot))) →
  Forall (fun r => is_Some (h !! r)) (items ot) →
  ∃ h', Blankshield.blankshield (Object rt) h = (Normal tt, h')
        ∧ (∀ r o, h !! r = Some o →
             ∃ o', h' !! r = Some o'
                   ∧ click_registrations ClickListener o'
                     = click_registrations ClickListener o + occurrences r (items ot))
        ∧ (∀ r, h !! r = None → h' !! r = None).
Proof.
  intros Hrt Hlen Hall.
  unfold Blankshield.blankshield, get_length.
  rewrite Hrt. cbn [fmap option_fmap option_map]. rewrite Hlen.
  cbn [typeof_is_string instanceof_String negb andb loop_bound].
  rewrite Nat2Z.id.
  apply (attach_each_collection rt (items ot) (length (items ot)) 0 h);
    [lia | by exists ot | done].
Qed.

Lemma attach_collection_witness :
  let h : gmap nat Obj :=
    <[0 := array_object [1; 2; 1]]>
      (<[1 := dom_object LengthUndefined]>
         (<[2 := bare_object LengthUndefined None]> ∅)) in
  ∃ h', Blankshield.blankshield (Object 0) h = (Normal tt, h')
        ∧ (∀ r o, h !! r = Some o →
             ∃ o', h' !! r = Some o'
                   ∧ click_registrations ClickListener o'
                     = click_registrations ClickListener o + occurrences r [1; 2; 1])
        ∧ (∀ r, h !! r = None → h' !! r = None).
Proof.
  intros h.
  refine (attach_collection h 0 (array_object [1; 2; 1]) eq_refl eq_refl _).
  repeat (constructor; [eexists; reflexivity|]). constructor.
Defined.

(** [addEventListener] of src/blankshield.js chains: when the target has
    neither registration method and its on-property holds a handler, the
    property is replaced by a wrapper, every other object is left alone, and
    a call of the wrapper calls the new listener and then the previous one,
    both without arguments. *)
Theorem addEventListener_chains_previous_handler
    (h : gmap nat Obj) (r : nat) (o : Obj) (type : string) (l prev : Listener) :
  h !! r = Some o →
  has_addEventListener o = false →
  has_attachEvent o = false →
  props o !! ("on" +:+ type) = Some prev →
  Blankshield.addEventListener r type l h
  = (Normal tt, <[r := set_prop ("on" +:+ type) (Wrapper l prev) o]> h)
  ∧ (∀ arg w v1 w1 v2 w2,
       call l None w = (Normal v1, w1) →
       call prev None w1 = (Normal v2, w2) →
       call (Wrapper l prev) arg w = (Normal RUndefined, w2))
  ∧ (∀ arg w x w1,
       call l None w = (Throw x, w1) →
       call (Wrapper l prev) arg w = (Throw x, w1)).
Proof.
  intros Hr Ha Hb Hp. split; [|split].
  - unfold Blankshield.addEventListener. by rewrite Hr, Ha, Hb, Hp.
  - intros arg w v1 w1 v2 w2 H1 H2. cbn [call]. by rewrite H1, H2.
  - intros arg w x w1 H1. cbn [call]. by rewrite H1.
Qed.

Lemma addEventListener_chains_previous_handler_witness :
  let o := bare_object LengthUndefined (Some (PageHandler 7)) in
  let h : gmap nat Obj := <[0 := o]> ∅ in
  Blankshield.addEventListener 0 "click" ClickListener h
  = (Normal tt, <[0 := set_prop ("on" +:+ "click") (Wrapper ClickListener (PageHandler 7)) o]> h)
  ∧ (∀ arg w v1 w1 v2 w2,
       call ClickListener None w = (Normal v1, w1) →
       call (PageHandler 7) None w1 = (Normal v2, w2) →
       call (Wrapper ClickListener (PageHandler 7)) arg w = (Normal RUndefined, w2))
  ∧ (∀ arg w x w1,
       call ClickListener None w = (Throw x, w1) →
       call (Wrapper ClickListener (PageHandler 7)) arg w = (Throw x, w1)).
Proof.
  intros o h.
  exact (addEventListener_chains_previous_handler h 0 o "click" ClickListener
           (PageHandler 7) eq_refl eq_refl eq_refl eq_refl).
Defined.

(** C3: [addEvent] of the direct variant on an object that has neither
    registration method and whose [onclick] already holds a handler of the
    page: the property is overwritten with [handler], and a qualifying click
    then runs [handler] alone; the previous handler does not run.  On the
    same input [addEventListener] of src/blankshield.js installs the
    wrapper, and the same click cancels navigation and runs the previous
    handler once. *)
Theorem addEvent_overwrites_previous_handler :
  let o := bare_object LengthUndefined (Some (PageHandler 7)) in
  let h : gmap nat Obj := <[0 := o]> ∅ in
  let e := standard_click (anchor "http://example.com/" "_blank") in
  (∃ o', Direct.addEvent 0 "click" Handler h = (Normal tt, <[0 := o']> h) ∧
         props o' !! "onclick" = Some Handler ∧
         ∃ w', click_on o' e (empty_page true) = (Normal RUndefined, w') ∧
               cancellations (calls w') = 1 ∧
               page_handler_runs 7 (calls w') = 0) ∧
  (∃ o', Blankshield.addEventListener 0 "click" ClickListener h
         = (Normal tt, <[0 := o']> h) ∧
         props o' !! "onclick" = Some (Wrapper ClickListener (PageHandler 7)) ∧
         ∃ w', click_on o' e (empty_page true) = (Normal RUndefined, w') ∧
               cancellations (calls w') = 1 ∧
               page_handler_runs 7 (calls w') = 1).
Proof.
  intros o h e. split.
  - eexists. split; [reflexivity|]. split; [reflexivity|].
    eexists. split; [vm_compute; reflexivity|]. split; vm_compute; reflexivity.
  - eexists. split; [reflexivity|]. split; [reflexivity|].
    eexists. split; [vm_compute; reflexivity|]. split; vm_compute; reflexivity.
Qed.


(** ** Registration of any listener for any event type *)

Lemma on_type_eqb (ty ty' : string) :
  String.eqb ("on" +:+ ty) ("on" +:+ ty') = String.eqb ty ty'.
Proof. reflexivity. Qed.

Lemma on_type_inj (ty ty' : string) : "on" +:+ ty = "on" +:+ ty' → ty = ty'.
Proof. intros H. by injection H. Qed.

Lemma registrations_listeners (ty ty' : string) (g f : Listener) (o : Obj) :
  registrations ty' g (set_listeners (listeners o ++ [(ty, f, false)]) o)
  = registrations ty' g o + (if String.eqb ty ty' then invokes g f else 0).
Proof.
  unfold registrations. cbn [listeners attached props set_listeners].
  rewrite sum_list_with_app. cbn. lia.
Qed.

Lemma registrations_attached (ty ty' : string) (g f : Listener) (o : Obj) :
  registrations ty' g (set_attached (attached o ++ [("on" +:+ ty, f)]) o)
  = registrations ty' g o + (if String.eqb ty ty' then invokes g f else 0).
Proof.
  unfold registrations. cbn [listeners attached props set_attached].
  rewrite sum_list_with_app. cbn [sum_list_with]. rewrite on_type_eqb. lia.
Qed.

Lemma registrations_prop (ty ty' : string) (g f : Listener) (o : Obj) :
  registrations ty' g (set_prop ("on" +:+ ty) f o)
  = registrations ty' g o
    + (if String.eqb ty ty' then invokes g f else 0)
    - (if String.eqb ty ty'
       then match props o !! ("on" +:+ ty) with Some p => invokes g p | None => 0 end
       else 0).
Proof.
  unfold registrations. cbn [listeners attached props set_prop].
  destruct (String.eqb_spec ty ty') as [->|Hne].
  - rewrite lookup_insert_eq. destruct (props o !! ("on" +:+ ty')); lia.
  - rewrite lookup_insert_ne by (intros H; by apply Hne, on_type_inj). lia.
Qed.

(** [addEventListener] of src/blankshield.js, for any event type and any
    listener, on any object: it completes normally, changes that object
    only, and the only change is one more registration of the listener for
    that type.  For every listener [g] and every type, the number of times an
    event reaches [g] is what it was, plus the calls of [g] the new listener
    makes if the type is the one registered: no registration is lost, in any
    of the four branches.  The object keeps its [length], its items and its
    registration methods. *)
Theorem addEventListener_accounts
    (h : gmap nat Obj) (r : nat) (o : Obj) (ty : string) (l : Listener) :
  h !! r = Some o →
  ∃ o', Blankshield.addEventListener r ty l h = (Normal tt, <[r := o']> h)
        ∧ (∀ ty' g, registrations ty' g o'
                    = registrations ty' g o
                      + (if String.eqb ty ty' then invokes g l else 0))
        ∧ length_prop o' = length_prop o
        ∧ items o' = items o
        ∧ has_addEventListener o' = has_addEventListener o
        ∧ has_attachEvent o' = has_attachEvent o.
Proof.
  intros Hr. unfold Blankshield.addEventListener. rewrite Hr.
  destruct (has_addEventListener o) eqn:Ha.
  { eexists. split; [done|]. split; [|by cbn].
    intros ty' g. apply registrations_listeners. }
  cbn zeta. destruct (has_attachEvent o) eqn:Hb.
  { eexists. split; [done|]. split; [|by cbn].
    intros ty' g. apply registrations_attached. }
  destruct (props o !! ("on" +:+ ty)) as [prev|] eqn:Hp.
  - eexists. split; [done|]. split; [|by cbn].
    intros ty' g. rewrite registrations_prop, Hp, invokes_wrapper.
    destruct (String.eqb ty ty'); lia.
  - eexists. split; [done|]. split; [|by cbn].
    intros ty' g. rewrite registrations_prop, Hp.
    destruct (String.eqb ty ty'); lia.
Qed.

Lemma addEventListener_accounts_witness :
  let o := bare_object LengthUndefined (Some (PageHandler 7)) in
  let h : gmap nat Obj := <[0 := o]> ∅ in
  ∃ o', Blankshield.addEventListener 0 "keydown" (PageHandler 3) h
        = (Normal tt, <[0 := o']> h)
        ∧ (∀ ty' g, registrations ty' g o'
                    = registrations ty' g o
                      + (if String.eqb "keydown" ty' then invokes g (PageHandler 3) else 0))
        ∧ length_prop o' = length_prop o
        ∧ items o' = items o
        ∧ has_addEventListener o' = has_addEventListener o
        ∧ has_attachEvent o' = has_attachEvent o.
Proof.
  intros o h.
  exact (addEventListener_accounts h 0 o "keydown" (PageHandler 3) eq_refl).
Defined.

(** [addEvent] of the direct variant, likewise: one more registration of
    the listener for the type, on that object only; but where the object
    has no registration method, what its on-property held before is dropped
    from the count. *)
Theorem addEvent_accounts
    (h : gmap nat Obj) (r : nat) (o : Obj) (ty : string) (l : Listener) :
  h !! r = Some o →
  ∃ o', Direct.addEvent r ty l h = (Normal tt, <[r := o']> h)
        ∧ (∀ ty' g, registrations ty' g o'
                    = registrations ty' g o
                      + (if String.eqb ty ty' then invokes g l else 0)
                      - (if String.eqb ty ty'
                            && negb (has_addEventListener o || has_attachEvent o)
                         then match props o !! ("on" +:+ ty) with
                              | Some p => invokes g p
                              | None => 0
                              end
                         else 0))
        ∧ length_prop o' = length_prop o
        ∧ items o' = items o
        ∧ has_addEventListener o' = has_addEventListener o
        ∧ has_attachEvent o' = has_attachEvent o.
Proof.
  intros Hr. unfold Direct.addEvent. rewrite Hr.
  destruct (has_addEventListener o) eqn:Ha.
  { eexists. split; [done|]. split; [|by cbn].
    intros ty' g. rewrite registrations_listeners.
    rewrite andb_false_r. lia. }
  destruct (has_attachEvent o) eqn:Hb.
  { eexists. split; [done|]. split; [|by cbn].
    intros ty' g. rewrite registrations_attached.
    rewrite andb_false_r. lia. }
  eexists. split; [done|]. split; [|by cbn].
  intros ty' g. rewrite registrations_prop. cbn [orb negb]. by rewrite andb_true_r.
Qed.

Lemma addEvent_accounts_witness :
  let o := bare_object LengthUndefined (Some (PageHandler 7)) in
  let h : gmap nat Obj := <[0 := o]> ∅ in
  ∃ o', Direct.addEvent 0 "click" Handler h = (Normal tt, <[0 := o']> h)
        ∧ (∀ ty' g, registrations ty' g o'
                    = registrations ty' g o
                      + (if String.eqb "click" ty' then invokes g Handler else 0)
                      - (if String.eqb "click" ty'
                            && negb (has_addEventListener o || has_attachEvent o)
                         then match props o !! ("on" +:+ "click") with
                              | Some p => invokes g p
                              | None => 0
                              end
                         else 0))
        ∧ length_prop o' = length_prop o
        ∧ items o' = items o
        ∧ has_addEventListener o' = has_addEventListener o
        ∧ has_attachEvent o' = has_attachEvent o.
Proof.
  intros o h.
  exact (addEvent_accounts h 0 o "click" Handler eq_refl).
Defined.

(** ** Collections *)

Lemma addEventListener_undefined (r : nat) (ty : string) (l : Listener)
    (h : gmap nat Obj) :
  h !! r = None → Blankshield.addEventListener r ty l h = (Throw TypeError, h).
Proof. intros Hr. unfold Blankshield.addEventListener. by rewrite Hr. Qed.

(** The loop of src/blankshield.js when the item at index [i + k] is
    undefined: [k] registrations, then a TypeError. *)
Lemma attach_each_abort (rt : nat) (rs : list nat) :
  ∀ k n i (h : gmap nat Obj),
    (k < n)%nat →
    (i + k ≤ length rs)%nat →
    (∃ ot, h !! rt = Some ot ∧ items ot = rs) →
    Forall (fun r => is_Some (h !! r)) (take k (drop i rs)) →
    (∀ r, rs !! (i + k) = Some r → h !! r = None) →
    ∃ h', Blankshield.attach_each (Object rt) n i h = (Throw TypeError, h')
          ∧ (∀ r o, h !! r = Some o →
               ∃ o', h' !! r = Some o'
                     ∧ click_registrations ClickListener o'
                       = click_registrations ClickListener o
                         + occurrences r (take k (drop i rs)))
          ∧ (∀ r, h !! r = None → h' !! r = None).
Proof.
  induction k as [|k IH]; intros n i h Hkn Hlen (ot & Hrt & Hitems) Hall Hbad.
  - destruct n as [|n]; [lia|].
    cbn [Blankshield.attach_each]. unfold get_item. rewrite Hrt, Hitems.
    rewrite Nat.add_0_r in Hbad.
    exists h. split.
    { destruct (rs !! i) as [el|] eqn:Hi; [|done].
      by rewrite (addEventListener_undefined el _ _ h (Hbad el eq_refl)). }
    split; [|done]. intros r o Hr. exists o. split; [done|].
    rewrite take_0. cbn. lia.
  - destruct n as [|n]; [lia|].
    cbn [Blankshield.attach_each]. unfold get_item. rewrite Hrt, Hitems.
    destruct (rs !! i) as [el|] eqn:Hi.
    2: { apply lookup_ge_None in Hi. lia. }
    rewrite (drop_S _ _ _ Hi) in Hall |- *. rewrite firstn_cons in Hall |- *.
    apply Forall_cons in Hall as [[oel Hel] Hall].
    destruct (addEventListener_click el oel h Hel) as (oel' & Hreg & Hcount & Hit).
    rewrite Hreg.
    destruct (IH n (S i) (<[el := oel']> h)) as (h' & Hloop & Hcounts & Hnone).
    + lia.
    + lia.
    + destruct (decide (rt = el)) as [->|Hne].
      * exists oel'. rewrite lookup_insert_eq. split; [done|]. rewrite Hit. congruence.
      * exists ot. by rewrite lookup_insert_ne.
    + eapply Forall_impl; [exact Hall|]. intros r [x Hx].
      destruct (decide (el = r)) as [->|Hne].
      * rewrite lookup_insert_eq. by eexists.
      * rewrite lookup_insert_ne by done. by eexists.
    + intros r Hr. rewrite lookup_insert_ne.
      * apply Hbad. by rewrite <- Nat.add_succ_comm.
      * intros ->. rewrite Nat.add_succ_comm in Hr.
        specialize (Hbad _ Hr). congruence.
    + exists h'. split; [done|]. split.
      * intros r o Hr. cbn [occurrences].
        destruct (decide (el = r)) as [->|Hne].
        -- rewrite Hel in Hr. injection Hr as <-.
           destruct (Hcounts r oel') as (o' & Ho' & Hc); [by rewrite lookup_insert_eq|].
           exists o'. split; [done|]. lia.
        -- destruct (Hcounts r o) as (o' & Ho' & Hc); [by rewrite lookup_insert_ne|].
           exists o'. split; [done|]. lia.
      * intros r Hr. apply Hnone. rewrite lookup_insert_ne; [done|].
        intros ->. congruence.
Qed.

(** [blankshield] of src/blankshield.js on a collection with a hole: when
    [target.length] exceeds [k], the first [k] items are objects and the item
    at index [k] is undefined, the call throws a TypeError after it has
    registered [clickListener] on the first [k] items, once per position.
    Nothing is registered for the positions after [k], and nothing the call
    registered is undone. *)
Theorem attach_collection_aborts_at_undefined
    (h : gmap nat Obj) (rt : nat) (ot : Obj) (k : nat) :
  h !! rt = Some ot →
  (k < loop_bound (length_prop ot))%nat →
  (k ≤ length (items ot))%nat →
  Forall (fun r => is_Some (h !! r)) (take k (items ot)) →
  (∀ r, items ot !! k = Some r → h !! r = None) →
  ∃ h', Blankshield.blankshield (Object rt) h = (Throw TypeError, h')
        ∧ (∀ r o, h !! r = Some o →
             ∃ o', h' !! r = Some o'
                   ∧ click_registrations ClickListener o'
                     = click_registrations ClickListener o
                       + occurrences r (take k (items ot)))
        ∧ (∀ r, h !! r = None → h' !! r = None).
Proof.
  intros Hrt Hk Hlen Hall Hbad.
  unfold Blankshield.blankshield, get_length.
  rewrite Hrt. cbn [fmap option_fmap option_map].
  destruct (length_prop ot) as [|n|n] eqn:Hl; [cbn in Hk; lia|..];
    cbn [typeof_is_string instanceof_String negb andb];
    apply (attach_each_abort rt (items ot) k _ 0 h); try done; by exists ot.
Qed.

Lemma attach_collection_aborts_at_undefined_witness :
  let h : gmap nat Obj :=
    <[0 := array_object [1; 9; 2]]>
      (<[1 := dom_object LengthUndefined]>
         (<[2 := bare_object LengthUndefined None]> ∅)) in
  ∃ h', Blankshield.blankshield (Object 0) h = (Throw TypeError, h')
        ∧ (∀ r o, h !! r = Some o →
             ∃ o', h' !! r = Some o'
                   ∧ click_registrations ClickListener o'
                     = click_registrations ClickListener o
                       + occurrences r (take 1 [1; 9; 2]))
        ∧ (∀ r, h !! r = None → h' !! r = None).
Proof.
  intros h.
  refine (attach_collection_aborts_at_undefined h 0 (array_object [1; 9; 2]) 1
            eq_refl _ _ _ _).
  - cbn. lia.
  - cbn. lia.
  - repeat (constructor; [eexists; reflexivity|]). constructor.
  - intros r Hr. injection Hr as <-. reflexivity.
Defined.

Lemma addEvent_click_reaches (r : nat) (o : Obj) (h : gmap nat Obj) :
  h !! r = Some o →
  ∃ o', Direct.addEvent r "click" Handler h = (Normal tt, <[r := o']> h)
        ∧ (1 ≤ click_registrations Handler o')%nat
        ∧ items o' = items o.
Proof.
  intros Hr. unfold Direct.addEvent. rewrite Hr.
  change ("on" +:+ "click") with "onclick".
  destruct (has_addEventListener o).
  { eexists. split; [done|]. split; [|done].
    rewrite click_registrations_listeners, invokes_handler. lia. }
  destruct (has_attachEvent o).
  { eexists. split; [done|]. split; [|done].
    rewrite click_registrations_attached, invokes_handler. lia. }
  eexists. split; [done|]. split; [|done].
  unfold click_registrations. cbn [props set_prop].
  rewrite lookup_insert_eq, invokes_handler. lia.
Qed.

(** The loop of the direct variant over a collection [rs] held by the
    object [rt], from index [i] on. *)
Lemma direct_attach_each_collection (rt : nat) (rs : list nat) :
  ∀ n i (h : gmap nat Obj),
    i + n = length rs →
    (∃ ot, h !! rt = Some ot ∧ items ot = rs) →
    Forall (fun r => is_Some (h !! r)) rs →
    ∃ h', Direct.attach_each (Object rt) n i h = (Normal tt, h')
          ∧ (∀ r, r ∈ drop i rs →
               ∃ o', h' !! r = Some o' ∧ (1 ≤ click_registrations Handler o')%nat)
          ∧ (∀ r, r ∉ drop i rs → h' !! r = h !! r).
Proof.
  induction n as [|n IH]; intros i h Hlen (ot & Hrt & Hitems) Hall.
  { exists h. split; [done|]. rewrite drop_ge by lia. split; [|done].
    intros r Hr. by apply elem_of_nil in Hr. }
  cbn [Direct.attach_each]. unfold get_item. rewrite Hrt, Hitems.
  destruct (rs !! i) as [el|] eqn:Hi.
  2: { apply lookup_ge_None in Hi. lia. }
  destruct (proj1 (Forall_forall _ _) Hall el) as [oel Hel].
  { by eapply list_elem_of_lookup_2. }
  destruct (addEvent_click_reaches el oel h Hel) as (oel' & Hreg & Hcount & Hit).
  rewrite Hreg.
  destruct (IH (S i) (<[el := oel']> h)) as (h' & Hloop & Hin & Hout).
  - lia.
  - destruct (decide (rt = el)) as [->|Hne].
    + exists oel'. rewrite lookup_insert_eq. split; [done|]. rewrite Hit. congruence.
    + exists ot. by rewrite lookup_insert_ne.
  - apply Forall_forall. intros r Hr.
    destruct (decide (el = r)) as [->|Hne].
    + rewrite lookup_insert_eq. by eexists.
    + rewrite lookup_insert_ne by done. by apply (proj1 (Forall_forall _ _) Hall).
  - exists h'. split; [done|]. rewrite (drop_S _ _ _ Hi). split.
    + intros r Hr.
      destruct (decide (r ∈ drop (S i) rs)) as [Hlater|Hlater]; [by apply Hin|].
      apply elem_of_cons in Hr as [->|Hr]; [|done].
      exists oel'. split; [|done].
      rewrite (Hout el Hlater). by rewrite lookup_insert_eq.
    + intros r Hr. apply not_elem_of_cons in Hr as [Hne Hr].
      rewrite (Hout r Hr). by rewrite lookup_insert_ne.
Qed.

(** [blankshield] of the direct variant on a collection: when
    [target.length] is the number of items of [target] and every item is an
    object, the call returns normally; afterwards a click on any element of
    the collection reaches [handler], and every object that is not in the
    collection is exactly as it was. *)
Theorem direct_attach_collection (h : gmap nat Obj) (rt : nat) (ot : Obj) :
  h !! rt = Some ot →
  length_prop ot = LengthNumber (Z.of_nat (length (items ot))) →
  Forall (fun r => is_Some (h !! r)) (items ot) →
  ∃ h', Direct.blankshield (Object rt) h = (Normal tt, h')
        ∧ (∀ r, r ∈ items ot →
             ∃ o', h' !! r = Some o' ∧ (1 ≤ click_registrations Handler o')%nat)
        ∧ (∀ r, r ∉ items ot → h' !! r = h !! r).
Proof.
  intros Hrt Hlen Hall.
  unfold Direct.blankshield, get_length.
  rewrite Hrt. cbn [fmap option_fmap option_map]. rewrite Hlen.
  cbn [typeof_is_string instanceof_String negb andb loop_bound].
  rewrite Nat2Z.id.
  apply (direct_attach_each_collection rt (items ot) (length (items ot)) 0 h);
    [lia | by exists ot | done].
Qed.

Lemma direct_attach_collection_witness :
  let h : gmap nat Obj :=
    <[0 := array_object [1; 2; 1]]>
      (<[1 := dom_object LengthUndefined]>
         (<[2 := bare_object LengthUndefined (Some (PageHandler 7))]> ∅)) in
  ∃ h', Direct.blankshield (Object 0) h = (Normal tt, h')
        ∧ (∀ r, r ∈ [1; 2; 1] →
             ∃ o', h' !! r = Some o' ∧ (1 ≤ click_registrations Handler o')%nat)
        ∧ (∀ r, r ∉ [1; 2; 1] → h' !! r = h !! r).
Proof.
  intros h.
  refine (direct_attach_collection h 0 (array_object [1; 2; 1]) eq_refl eq_refl _).
  repeat (constructor; [eexists; reflexivity|]). constructor.
Defined.


(** ** Clicks through the wrapper of [addEventListener] *)

(** A qualifying click on an object whose [onclick] holds the wrapper: the
    wrapper calls [clickListener] without an argument, which finds the event
    in [window.event]; the previous handler runs in the state this leaves. *)
Lemma wrapper_click
    (o : Obj) (prev : Listener) (e : Event) (el : Element) (href : string) (w : World) :
  props o !! "onclick" = Some (Wrapper ClickListener prev) →
  or_else (ev_target e) (ev_srcElement e) = Some el →
  qualifying e el href →
  literal_safe href = true →
  ∃ w1 cs,
    Blankshield.clickListener None (publish e w) = (Normal RFalse, w1)
    ∧ calls w1 = (calls w ++ cs)%list
    ∧ cancellations cs = 1
    ∧ injections href cs = 1
    ∧ window_event w1 = Some e
    ∧ popups_allowed w1 = popups_allowed w
    ∧ click_on o e w
      = (let '(c, w2) := call prev None w1 in
         (match c with
          | Normal _ => Normal RUndefined
          | Throw x => Throw x
          | Undetermined => Undetermined
          end, w2)).
Proof.
  intros Hp Hel Hq Hsafe.
  destruct (clickListener_isolates None e el href (publish e w) eq_refl Hel Hq Hsafe)
    as (w1 & cs & Hrun & Hcalls & Hc & Hi & _ & _ & _ & He & Hpop).
  exists w1, cs. repeat split; try done.
  unfold click_on. rewrite Hp. fold (publish e w). cbn [call]. rewrite Hrun.
  by destruct (call prev None w1) as [[v|x|] w2].
Qed.

Lemma blankshield_single (h : gmap nat Obj) (r : nat) (o : Obj) :
  h !! r = Some o →
  length_prop o = LengthUndefined →
  Blankshield.blankshield (Object r) h
  = Blankshield.addEventListener r "click" ClickListener h.
Proof.
  intros Hr Hlen. unfold Blankshield.blankshield, get_length.
  rewrite Hr. cbn [fmap option_fmap option_map]. by rewrite Hlen.
Qed.

Lemma addEventListener_onclick (h : gmap nat Obj) (r : nat) (o : Obj) :
  h !! r = Some o →
  has_addEventListener o = false →
  has_attachEvent o = false →
  Blankshield.addEventListener r "click" ClickListener h
  = (Normal tt,
     <[r := set_prop "onclick"
              (match props o !! "onclick" with
               | Some prev => Wrapper ClickListener prev
               | None => ClickListener
               end) o]> h).
Proof.
  intros Hr Ha Hb. unfold Blankshield.addEventListener. rewrite Hr, Ha, Hb.
  change ("on" +:+ "click") with "onclick".
  by destruct (props o !! "onclick").
Qed.

(** [blankshield] on an element that has neither registration method and
    whose [onclick] holds a handler of the page: after the call, a
    qualifying click on the element, with an href that has no double quote,
    backslash, line feed or carriage return, and in a host that publishes
    the event in [window.event] while it calls [onclick], first runs
    [clickListener], which is called without the event and reads it from
    [window.event], injects the script for the href and cancels once; then
    the previous handler runs, without an argument, in the state this
    leaves.  The click's handler returns [undefined], not the [false] of
    [clickListener]. *)
Theorem chained_click_reads_global_event
    (h : gmap nat Obj) (r : nat) (o : Obj) (prev : Listener)
    (e : Event) (el : Element) (href : string) (w : World) :
  h !! r = Some o →
  length_prop o = LengthUndefined →
  has_addEventListener o = false →
  has_attachEvent o = false →
  props o !! "onclick" = Some prev →
  or_else (ev_target e) (ev_srcElement e) = Some el →
  qualifying e el href →
  literal_safe href = true →
  ∃ o' w1 cs,
    Blankshield.blankshield (Object r) h = (Normal tt, <[r := o']> h)
    ∧ Blankshield.clickListener None (publish e w) = (Normal RFalse, w1)
    ∧ calls w1 = (calls w ++ cs)%list
    ∧ cancellations cs = 1
    ∧ injections href cs = 1
    ∧ click_on o' e w
      = (let '(c, w2) := call prev None w1 in
         (match c with
          | Normal _ => Normal RUndefined
          | Throw x => Throw x
          | Undetermined => Undetermined
          end, w2)).
Proof.
  intros Hr Hlen Ha Hb Hp Hel Hq Hsafe.
  destruct (wrapper_click (set_prop "onclick" (Wrapper ClickListener prev) o)
              prev e el href w) as (w1 & cs & Hrun & Hcalls & Hc & Hi & _ & _ & Hclick);
    [by cbn; rewrite lookup_insert_eq|done|done|done|].
  exists (set_prop "onclick" (Wrapper ClickListener prev) o), w1, cs.
  split; [|done].
  rewrite (blankshield_single h r o Hr Hlen), (addEventListener_onclick h r o Hr Ha Hb).
  by rewrite Hp.
Qed.

Lemma chained_click_reads_global_event_witness :
  let o := bare_object LengthUndefined (Some (PageHandler 7)) in
  let h : gmap nat Obj := <[0 := o]> ∅ in
  let el := anchor "http://example.com/" "_blank" in
  let e := standard_click el in
  ∃ o' w1 cs,
    Blankshield.blankshield (Object 0) h = (Normal tt, <[0 := o']> h)
    ∧ Blankshield.clickListener None (publish e (empty_page true)) = (Normal RFalse, w1)
    ∧ calls w1 = cs
    ∧ cancellations cs = 1
    ∧ injections "http://example.com/" cs = 1
    ∧ click_on o' e (empty_page true)
      = (let '(c, w2) := call (PageHandler 7) None w1 in
         (match c with
          | Normal _ => Normal RUndefined
          | Throw x => Throw x
          | Undetermined => Undetermined
          end, w2)).
Proof.
  intros o h el e.
  refine (chained_click_reads_global_event h 0 o (PageHandler 7) e el
            "http://example.com/" (empty_page true)
            eq_refl eq_refl eq_refl eq_refl eq_refl eq_refl _ eq_refl).
  solve_qualifying.
Defined.

(** [blankshield] called twice on the same element that has neither
    registration method and no [onclick]: both calls return normally, the
    second wraps the first registration ([onclick] is the wrapper of
    [clickListener] around [clickListener]), and one qualifying click, with
    an href that has no double quote, backslash, line feed or carriage
    return, then injects the script for the href twice and cancels twice. *)
Theorem attach_twice_isolates_twice
    (h : gmap nat Obj) (r : nat) (o : Obj)
    (e : Event) (el : Element) (href : string) (w : World) :
  h !! r = Some o →
  length_prop o = LengthUndefined →
  has_addEventListener o = false →
  has_attachEvent o = false →
  props o !! "onclick" = None →
  or_else (ev_target e) (ev_srcElement e) = Some el →
  qualifying e el href →
  literal_safe href = true →
  ∃ h1 h2 o2,
    Blankshield.blankshield (Object r) h = (Normal tt, h1)
    ∧ Blankshield.blankshield (Object r) h1 = (Normal tt, h2)
    ∧ h2 !! r = Some o2
    ∧ props o2 !! "onclick" = Some (Wrapper ClickListener ClickListener)
    ∧ ∃ w', click_on o2 e w = (Normal RUndefined, w')
            ∧ cancellations (calls w') = cancellations (calls w) + 2
            ∧ injections href (calls w') = injections href (calls w) + 2.
Proof.
  intros Hr Hlen Ha Hb Hp Hel Hq Hsafe.
  set (o1 := set_prop "onclick" ClickListener o).
  set (o2 := set_prop "onclick" (Wrapper ClickListener ClickListener) o1).
  exists (<[r := o1]> h), (<[r := o2]> (<[r := o1]> h)), o2.
  split.
  { rewrite (blankshield_single h r o Hr Hlen), (addEventListener_onclick h r o Hr Ha Hb).
    by rewrite Hp. }
  split.
  { rewrite (blankshield_single (<[r := o1]> h) r o1) by (by rewrite ?lookup_insert_eq).
    rewrite (addEventListener_onclick (<[r := o1]> h) r o1)
      by (by rewrite ?lookup_insert_eq).
    subst o1. cbn [props set_prop]. by rewrite lookup_insert_eq. }
  split; [by rewrite lookup_insert_eq|].
  assert (Hp2 : props o2 !! "onclick" = Some (Wrapper ClickListener ClickListener)).
  { subst o2. cbn [props set_prop]. by rewrite lookup_insert_eq. }
  split; [done|].
  destruct (wrapper_click o2 ClickListener e el href w Hp2 Hel Hq Hsafe)
    as (w1 & cs1 & _ & Hcalls1 & Hc1 & Hi1 & He1 & _ & Hclick).
  destruct (clickListener_isolates None e el href w1) as
    (w2 & cs2 & Hrun2 & Hcalls2 & Hc2 & Hi2 & _); [by rewrite He1|done|done|done|].
  exists w2. rewrite Hclick. cbn [call]. rewrite Hrun2.
  split; [done|].
  rewrite Hcalls2, Hcalls1, !cancellations_app, !injections_app. lia.
Qed.

Lemma attach_twice_isolates_twice_witness :
  let o := bare_object LengthUndefined None in
  let h : gmap nat Obj := <[0 := o]> ∅ in
  let el := anchor "http://example.com/" "_blank" in
  let e := legacy_click el in
  ∃ h1 h2 o2,
    Blankshield.blankshield (Object 0) h = (Normal tt, h1)
    ∧ Blankshield.blankshield (Object 0) h1 = (Normal tt, h2)
    ∧ h2 !! 0 = Some o2
    ∧ props o2 !! "onclick" = Some (Wrapper ClickListener ClickListener)
    ∧ ∃ w', click_on o2 e (empty_page true) = (Normal RUndefined, w')
            ∧ cancellations (calls w') = 2
            ∧ injections "http://example.com/" (calls w') = 2.
Proof.
  intros o h el e.
  refine (attach_twice_isolates_twice h 0 o e el "http://example.com/" (empty_page true)
            eq_refl eq_refl eq_refl eq_refl eq_refl eq_refl _ eq_refl).
  solve_qualifying.
Defined.


(** ** The export section *)

(** In both files: when [this] is an object and the CommonJS block
    completes, loading completes and its last write is
    [root.blankshield = blankshield], whatever module system was served
    before; with [this] undefined instead, the same writes are made up to
    that last one, and then the load throws a TypeError. *)
Theorem load_assigns_root_last (env : LoadEnv) (id : nat) :
  env_root env = ObjectRef id →
  fst (export_commonjs env) = Normal tt →
  (∃ pre, Blankshield.load env = (Normal tt, (pre ++ [PropertyAssigned id "blankshield"])%list)
          ∧ Blankshield.load (set_root NoValue env) = (Throw TypeError, pre))
  ∧ (∃ pre, Direct.load env = (Normal tt, (pre ++ [PropertyAssigned id "blankshield"])%list)
            ∧ Direct.load (set_root NoValue env) = (Throw TypeError, pre)).
Proof.
  intros Hroot Hcjs.
  unfold Blankshield.load, Direct.load.
  change (export_commonjs (set_root NoValue env)) with (export_commonjs env).
  change (Blankshield.export_amd (set_root NoValue env)) with (Blankshield.export_amd env).
  change (Direct.export_amd (set_root NoValue env)) with (Direct.export_amd env).
  cbn [env_root set_root]. rewrite Hroot.
  destruct (export_commonjs env) as [[[]|x|] ws]; [|discriminate Hcjs..].
  split.
  - destruct (Blankshield.export_amd env) as [c ws'] eqn:Hamd.
    assert (c = Normal tt) as ->.
    { unfold Blankshield.export_amd in Hamd.
      destruct (env_define env) as [|amd]; [|destruct (amd_typeof_object amd)];
        by injection Hamd as <- _. }
    exists (ws ++ ws')%list. cbn. by rewrite app_nil_r, app_assoc.
  - destruct (Direct.export_amd env) as [c ws'] eqn:Hamd.
    assert (c = Normal tt) as ->.
    { unfold Direct.export_amd in Hamd.
      destruct (env_define env) as [|amd];
        [|destruct (amd_typeof_object amd && amd_truthy amd)];
        by injection Hamd as <- _. }
    exists (ws ++ ws')%list. cbn. by rewrite app_nil_r, app_assoc.
Qed.

Lemma load_assigns_root_last_witness :
  (∃ pre, Blankshield.load (node_env 0)
          = (Normal tt, (pre ++ [PropertyAssigned 0 "blankshield"])%list)
          ∧ Blankshield.load (set_root NoValue (node_env 0)) = (Throw TypeError, pre))
  ∧ (∃ pre, Direct.load (node_env 0)
            = (Normal tt, (pre ++ [PropertyAssigned 0 "blankshield"])%list)
            ∧ Direct.load (set_root NoValue (node_env 0)) = (Throw TypeError, pre)).
Proof. exact (load_assigns_root_last (node_env 0) 0 eq_refl eq_refl). Defined.

(** The export sections of the two files do the same in every environment
    but one: where [define] is a function whose [amd] property is [null]
    (and the CommonJS block completes), src/blankshield.js calls [define]
    and the direct variant does not. *)
Theorem load_same_unless_amd_null (env : LoadEnv) :
  Blankshield.load env = Direct.load env
  ↔ ¬ (env_define env = DefineFunction AmdNull ∧ fst (export_commonjs env) = Normal tt).
Proof.
  destruct env as [ex mo de ro].
  unfold Blankshield.load, Direct.load.
  destruct (export_commonjs _) as [[[]|x|] ws] eqn:Hcjs; cbn [fst and_then].
  2, 3: split; [|done]; intros _ [_ H]; discriminate H.
  destruct de as [|[| | |]]; cbn;
    try (split; [intros _ [H _]; discriminate H | done]).
  split; [|intros H; exfalso; by apply H].
  destruct ro; cbn; intros H; exfalso; injection H as H;
    apply (f_equal length) in H; rewrite ?length_app in H; cbn in H; lia.
Qed.

